(** * roterfaden: the turn-taking logic of the audio relay game

    The repository holds two variants of one Express server.  Both keep
    the game as an array of player entries [[file1, file2, name, time]]
    and share, line for line, the two helpers [getCurrentPlayerStatus]
    and [getVisibleAudioFiles].  They differ in the record handlers:

    - [Session] is [server.js]: the game lives in the session, the first
      recording is guarded by [isNewPlayer], the second by [needsSecondFile];
    - [Shared] is the other server file: one process-wide game persisted
      as JSON, guarded by [canRecordFirst] and [canRecordSecond], with a
      reset route.

    [Date.now()] is an argument of every function that reads the clock,
    and a function that writes into the array returns the new array. *)

From Stdlib Require Import List String Ascii ZArith Bool Arith Lia.
From Stdlib Require Import DecimalString DecimalPos DecimalZ.
From Stdlib Require DecimalNat.
Import ListNotations.

Local Open Scope string_scope.
Local Open Scope list_scope.

(** ** Data model *)

(** A player entry is the four-element array
    [[first file | null, second file | null, name, timestamp | null]]. *)
Record slot : Type := Slot {
  file1 : option string;      (* entry 0: name of the first clip, or null *)
  file2 : option string;      (* entry 1: name of the second clip, or null *)
  name : string;              (* entry 2: the player's name *)
  startTime : option Z        (* entry 3: Date.now() of the first recording, or null *)
}.

Definition GameState : Type := list slot.

(** The values an entry is made of, as JavaScript has them: null,
    integers, strings and arrays. *)
#[warnings="-register-all"] Inductive json : Type :=
| JNull
| JNumber (n : Z)
| JString (s : string)
| JArray (items : list json).

Definition refToJson (v : option string) : json :=
  match v with Some s => JString s | None => JNull end.

Definition timeToJson (v : option Z) : json :=
  match v with Some n => JNumber n | None => JNull end.

(** The array an entry is. *)
Definition elements (p : slot) : list json :=
  [refToJson (file1 p); refToJson (file2 p); JString (name p);
   timeToJson (startTime p)].

(** [lastPlayer.length].  Every entry the routes push has four elements,
    and those are the entries [slot] holds.  A file read by
    [loadGameState] may hold entries of another length: for them see
    [loadedStatus] below, the same code on arrays of any length. *)
Definition arrayLength (p : slot) : nat := List.length (elements p).

(** JavaScript truthiness of the values an entry holds: [null], the empty
    string and [0] are falsy. *)
Definition truthyStr (s : string) : bool :=
  match s with EmptyString => false | String _ _ => true end.

Definition truthy (v : option string) : bool :=
  match v with None => false | Some s => truthyStr s end.

Definition truthyNum (v : option Z) : bool :=
  match v with None => false | Some n => negb (n =? 0)%Z end.

(** [a || b] on a string that may be missing. *)
Definition orElse (v : option string) (d : string) : string :=
  match v with
  | Some s => if truthyStr s then s else d
  | None => d
  end.

(** Decimal rendering of an array index, as a template literal does it. *)
Definition decimal (n : nat) : string := NilZero.string_of_uint (Nat.to_uint n).

(** The array without its last element, and that element:
    [None] exactly when [gameState.length === 0]. *)
Fixpoint unsnoc {A : Type} (l : list A) : option (list A * A) :=
  match l with
  | [] => None
  | x :: l' =>
      match unsnoc l' with
      | None => Some ([], x)
      | Some (init, y) => Some (x :: init, y)
      end
  end.

Module PlayerStatus.
Record t : Type := Make {
  isNewPlayer : bool;
  playerNumber : nat;
  needsSecondFile : bool;
  canRecordFirst : bool;
  canRecordSecond : bool;
  isRecording : bool
}.
End PlayerStatus.

Module PlayerFiles.
Record t : Type := Make {
  playerNumber : nat;
  playerName : string;
  firstFile : option string;
  secondFile : option string
}.
End PlayerFiles.

(** ** getCurrentPlayerStatus *)

Definition twoMinutes : Z := 2 * 60 * 1000.

(** [lastPlayer[0] = null; lastPlayer[3] = null]. *)
Definition clearFirst (lastPlayer : slot) : slot :=
  Slot None (file2 lastPlayer) (name lastPlayer) None.

(** The status object, and the array as the call leaves it: the timeout
    branch writes into the last entry, which the array shares. *)
Definition getCurrentPlayerStatus (gameState : GameState) (now : Z)
  : PlayerStatus.t * GameState :=
  match unsnoc gameState with
  | None =>
      (PlayerStatus.Make true 1 false true false false, gameState)
  | Some (earlier, lastPlayer) =>
      if (4 <=? arrayLength lastPlayer)%nat && truthy (file1 lastPlayer)
         && truthy (file2 lastPlayer)
      then
        (PlayerStatus.Make true (List.length gameState + 1) false true false false,
         gameState)
      else if (4 <=? arrayLength lastPlayer)%nat && truthy (file1 lastPlayer)
              && negb (truthy (file2 lastPlayer))
      then
        let recordingStartTime := startTime lastPlayer in
        if truthyNum recordingStartTime
           && (match recordingStartTime with
               | Some t => (now - t >? twoMinutes)%Z
               | None => false
               end)
        then
          (PlayerStatus.Make true (List.length gameState) false true false false,
           earlier ++ [clearFirst lastPlayer])
        else
          (PlayerStatus.Make false (List.length gameState) true false true false,
           gameState)
      else if negb (truthy (file1 lastPlayer))
      then
        (PlayerStatus.Make false (List.length gameState) false true false false,
         gameState)
      else
        (PlayerStatus.Make false (List.length gameState) false false false false,
         gameState)
  end.

(** ** getVisibleAudioFiles *)

(** The object pushed for [player = gameState[i]]. *)
Definition playerFiles (gameState : GameState) (i : nat) (player : slot)
  : PlayerFiles.t :=
  let playerName :=
    if truthyStr (name player) then name player else ("Player " ++ decimal (i + 1))%string in
  let firstFile := if truthy (file1 player) then file1 player else None in
  let secondFile :=
    if truthy (file2 player)
    then
      if (i + 1 <? List.length gameState)%nat
         && match nth_error gameState (i + 1) with
            | Some next => truthy (file1 next)
            | None => false
            end
      then file2 player
      else None
    else None in
  PlayerFiles.Make (i + 1) playerName firstFile secondFile.

(** The [for] loop from index [i] on, [rest] being the entries not yet
    visited and [visibleFiles] the array built so far. *)
Fixpoint visibleLoop (gameState : GameState) (i : nat) (rest : list slot)
  (visibleFiles : list PlayerFiles.t) : list PlayerFiles.t :=
  match rest with
  | [] => visibleFiles
  | player :: rest' =>
      visibleLoop gameState (S i) rest'
        (visibleFiles ++ [playerFiles gameState i player])
  end.

Definition getVisibleAudioFiles (gameState : GameState) : list PlayerFiles.t :=
  visibleLoop gameState 0 gameState [].

(** Decimal rendering of an integer number. *)
Definition decimalZ (n : Z) : string := NilZero.string_of_int (Z.to_int n).

(** ** The game as JSON text *)

(** [saveGameState] writes [JSON.stringify(sharedGameState, null, 2)] and
    [loadGameState] reads it back with [JSON.parse].  Both are modelled
    on the values a game is made of: null, integers, strings and arrays.
    Text is a [string] of characters; a character of a name and its
    UTF-8 bytes in the file are not told apart. *)

Definition dquote : ascii := ascii_of_nat 34.
Definition newline : string := String (ascii_of_nat 10) EmptyString.

Definition hexDigit (n : nat) : ascii :=
  match n with
  | 0 => "0" | 1 => "1" | 2 => "2" | 3 => "3" | 4 => "4"
  | 5 => "5" | 6 => "6" | 7 => "7" | 8 => "8" | 9 => "9"
  | 10 => "a" | 11 => "b" | 12 => "c" | 13 => "d" | 14 => "e"
  | _ => "f"
  end%char.

(** One character inside a quoted string: the quote and the backslash
    are escaped, control characters have their short escape or
    [\u00XX], everything else stands for itself. *)
Definition escapeChar (c : ascii) : string :=
  if Ascii.eqb c dquote then String "\" (String dquote EmptyString)
  else if Ascii.eqb c "\" then "\\"
  else
    let n := nat_of_ascii c in
    if (n =? 8)%nat then "\b"
    else if (n =? 9)%nat then "\t"
    else if (n =? 10)%nat then "\n"
    else if (n =? 12)%nat then "\f"
    else if (n =? 13)%nat then "\r"
    else if (n <? 32)%nat
    then ("\u00" ++ String (hexDigit (n / 16)) (String (hexDigit (n mod 16)) EmptyString))%string
    else String c EmptyString.

Fixpoint escape (s : string) : string :=
  match s with
  | EmptyString => EmptyString
  | String c rest => (escapeChar c ++ escape rest)%string
  end.

Definition quote (s : string) : string :=
  String dquote (escape s ++ String dquote EmptyString)%string.

(** [JSON.stringify(v, null, 2)] at the current indentation. *)
Fixpoint stringify (indent : string) (v : json) : string :=
  match v with
  | JNull => "null"
  | JNumber n => decimalZ n
  | JString s => quote s
  | JArray [] => "[]"
  | JArray items =>
      let stepback := indent in
      let indent := (indent ++ "  ")%string in
      let separator := ("," ++ newline ++ indent)%string in
      ("[" ++ newline ++ indent
           ++ String.concat separator (map (stringify indent) items)
           ++ newline ++ stepback ++ "]")%string
  end.

Definition JSON_stringify (v : json) : string := stringify "" v.

(** *** Reading JSON text *)

Definition isWhitespace (c : ascii) : bool :=
  let n := nat_of_ascii c in
  (n =? 32)%nat || (n =? 9)%nat || (n =? 10)%nat || (n =? 13)%nat.

Fixpoint skipWhitespace (s : string) : string :=
  match s with
  | EmptyString => EmptyString
  | String c rest => if isWhitespace c then skipWhitespace rest else s
  end.

Definition hexValue (c : ascii) : option nat :=
  let n := nat_of_ascii c in
  if (48 <=? n)%nat && (n <=? 57)%nat then Some (n - 48)
  else if (97 <=? n)%nat && (n <=? 102)%nat then Some (n - 87)
  else if (65 <=? n)%nat && (n <=? 70)%nat then Some (n - 55)
  else None.

(** The character written [\uXXXX]; codes from 128 on have no character
    in this model. *)
Definition unicodeEscape (h1 h2 h3 h4 : ascii) : option ascii :=
  match hexValue h1, hexValue h2, hexValue h3, hexValue h4 with
  | Some a, Some b, Some c, Some d =>
      let code := ((a * 16 + b) * 16 + c) * 16 + d in
      if (code <? 128)%nat then Some (ascii_of_nat code) else None
  | _, _, _, _ => None
  end.

Definition consChar (c : ascii) (r : option (string * string))
  : option (string * string) :=
  match r with
  | Some (s, rest) => Some (String c s, rest)
  | None => None
  end.

(** The characters of a string after its opening quote, up to the
    closing quote, and the text after it. *)
Fixpoint parseChars (s : string) : option (string * string) :=
  match s with
  | EmptyString => None
  | String c rest =>
      if Ascii.eqb c dquote then Some (EmptyString, rest)
      else if Ascii.eqb c "\" then
        match rest with
        | EmptyString => None
        | String e rest' =>
            if Ascii.eqb e dquote then consChar dquote (parseChars rest')
            else if Ascii.eqb e "\" then consChar "\" (parseChars rest')
            else if Ascii.eqb e "/" then consChar "/" (parseChars rest')
            else if Ascii.eqb e "b" then consChar (ascii_of_nat 8) (parseChars rest')
            else if Ascii.eqb e "t" then consChar (ascii_of_nat 9) (parseChars rest')
            else if Ascii.eqb e "n" then consChar (ascii_of_nat 10) (parseChars rest')
            else if Ascii.eqb e "f" then consChar (ascii_of_nat 12) (parseChars rest')
            else if Ascii.eqb e "r" then consChar (ascii_of_nat 13) (parseChars rest')
            else if Ascii.eqb e "u" then
              match rest' with
              | String h1 (String h2 (String h3 (String h4 rest''))) =>
                  match unicodeEscape h1 h2 h3 h4 with
                  | Some u => consChar u (parseChars rest'')
                  | None => None
                  end
              | _ => None
              end
            else None
        end
      else if (nat_of_ascii c <? 32)%nat then None
      else consChar c (parseChars rest)
  end.

Definition digitOf (c : ascii) : option (Decimal.uint -> Decimal.uint) :=
  match c with
  | "0" => Some Decimal.D0 | "1" => Some Decimal.D1 | "2" => Some Decimal.D2
  | "3" => Some Decimal.D3 | "4" => Some Decimal.D4 | "5" => Some Decimal.D5
  | "6" => Some Decimal.D6 | "7" => Some Decimal.D7 | "8" => Some Decimal.D8
  | "9" => Some Decimal.D9
  | _ => None
  end%char.

(** The longest run of digits at the head of the text. *)
Fixpoint readDigits (s : string) : Decimal.uint * string :=
  match s with
  | EmptyString => (Decimal.Nil, EmptyString)
  | String c rest =>
      match digitOf c with
      | Some d => let (ds, rest') := readDigits rest in (d ds, rest')
      | None => (Decimal.Nil, s)
      end
  end.

(** The text goes on with a fraction or an exponent. *)
Definition continuesNumber (s : string) : bool :=
  match s with
  | EmptyString => false
  | String c _ => Ascii.eqb c "." || Ascii.eqb c "e" || Ascii.eqb c "E"
  end.

(** An integer: digits without a leading zero, other than [0] itself.
    A fraction or an exponent is not read. *)
Definition readNatural (s : string) : option (Decimal.uint * string) :=
  let (ds, rest) := readDigits s in
  if Decimal.uint_beq (Decimal.unorm ds) ds && negb (continuesNumber rest)
  then Some (ds, rest)
  else None.

Definition parseNumber (s : string) : option (Z * string) :=
  match s with
  | EmptyString => None
  | String c rest =>
      if Ascii.eqb c "-"
      then match readNatural rest with
           | Some (ds, rest') => Some (Z.of_int (Decimal.Neg ds), rest')
           | None => None
           end
      else match readNatural s with
           | Some (ds, rest') => Some (Z.of_int (Decimal.Pos ds), rest')
           | None => None
           end
  end.

(** The literal [null]. *)
Definition parseNull (s : string) : option (json * string) :=
  match s with
  | String "n" (String "u" (String "l" (String "l" rest))) => Some (JNull, rest)
  | _ => None
  end.

(** A value, then the text after it.  [fuel] bounds the nesting and the
    number of array elements; [None] is a text that is not JSON or that
    holds a value outside the four kinds above. *)
Fixpoint parseValue (fuel : nat) (s : string) : option (json * string) :=
  match fuel with
  | O => None
  | S fuel =>
      match skipWhitespace s with
      | EmptyString => None
      | String c rest as text =>
          if Ascii.eqb c dquote then
            match parseChars rest with
            | Some (str, rest') => Some (JString str, rest')
            | None => None
            end
          else if Ascii.eqb c "[" then
            match skipWhitespace rest with
            | EmptyString => None
            | String c' rest' =>
                if Ascii.eqb c' "]" then Some (JArray [], rest')
                else
                  match parseItems fuel rest with
                  | Some (items, rest'') => Some (JArray items, rest'')
                  | None => None
                  end
            end
          else if Ascii.eqb c "n" then parseNull text
          else
            match parseNumber text with
            | Some (n, rest') => Some (JNumber n, rest')
            | None => None
            end
      end
  end

(** The elements of an array after its opening bracket, up to the
    closing one. *)
with parseItems (fuel : nat) (s : string) : option (list json * string) :=
  match fuel with
  | O => None
  | S fuel =>
      match parseValue fuel s with
      | None => None
      | Some (v, rest) =>
          match skipWhitespace rest with
          | EmptyString => None
          | String c rest' =>
              if Ascii.eqb c "," then
                match parseItems fuel rest' with
                | Some (items, rest'') => Some (v :: items, rest'')
                | None => None
                end
              else if Ascii.eqb c "]" then Some ([v], rest')
              else None
          end
      end
  end.

(** [JSON.parse]: one value and nothing but whitespace after it. *)
Definition JSON_parse (text : string) : option json :=
  match parseValue (S (String.length text)) text with
  | Some (v, rest) =>
      match skipWhitespace rest with
      | EmptyString => Some v
      | String _ _ => None
      end
  | None => None
  end.

(** *** The game array as a JSON value *)

Definition slotToJson (p : slot) : json :=
  JArray [refToJson (file1 p); refToJson (file2 p); JString (name p);
          timeToJson (startTime p)].

Definition toJson (gameState : GameState) : json :=
  JArray (map slotToJson gameState).

Definition refOfJson (v : json) : option (option string) :=
  match v with
  | JNull => Some None
  | JString s => Some (Some s)
  | _ => None
  end.

Definition timeOfJson (v : json) : option (option Z) :=
  match v with
  | JNull => Some None
  | JNumber n => Some (Some n)
  | _ => None
  end.

Definition slotOfJson (v : json) : option slot :=
  match v with
  | JArray [a; b; JString n; d] =>
      match refOfJson a, refOfJson b, timeOfJson d with
      | Some f1, Some f2, Some t => Some (Slot f1 f2 n t)
      | _, _, _ => None
      end
  | _ => None
  end.

Fixpoint slotsOfJson (items : list json) : option GameState :=
  match items with
  | [] => Some []
  | v :: items' =>
      match slotOfJson v, slotsOfJson items' with
      | Some p, Some ps => Some (p :: ps)
      | _, _ => None
      end
  end.

(** The game a JSON value stands for, when it is an array of
    four-element entries. *)
Definition ofJson (v : json) : option GameState :=
  match v with
  | JArray items => slotsOfJson items
  | _ => None
  end.

(** ** The record routes *)

(** The body of a POST request: each field may be missing. *)
Record body : Type := Body {
  audioData : option string;
  mimeType : option string;
  playerName : option string
}.

(** What the handler reads from its environment while it runs: the three
    [Date.now()] calls, [Math.round(Math.random() * 1E9)], and whether
    [fs.writeFileSync] of the clip returns or throws. *)
Record readings : Type := Readings {
  statusNow : Z;
  idNow : Z;
  random : Z;
  pushNow : Z;
  diskOk : bool
}.

(** The answer of a record route; the constant [message] of a success is
    left out. *)
Inductive response : Type :=
| Success (filename : string)      (* res.json({ success: true, filename }) *)
| BadRequest (error : string)      (* res.status(400).json({ error }) *)
| ServerError.                     (* the catch block: res.status(500) *)

(** [hay.includes(needle)]. *)
Definition includes (needle hay : string) : bool :=
  match String.index 0 needle hay with Some _ => true | None => false end.

(** [`player${playerIdx}_file${k}_${uniqueId}${extension}`] with
    [uniqueId = Date.now() + '-' + Math.round(Math.random() * 1E9)]. *)
Definition generateFilename (playerIdx : nat) (k : string) (io : readings)
  (mime : string) : string :=
  let uniqueId := (decimalZ (idNow io) ++ "-" ++ decimalZ (random io))%string in
  let extension := if includes "webm" mime then ".webm" else ".wav" in
  ("player" ++ decimal playerIdx ++ "_file" ++ k ++ "_" ++ uniqueId ++ extension)%string.

(** The three writes of the second route into the last entry. *)
Definition completeLast (lastPlayer : slot) (filename : string)
  (playerName : option string) : slot :=
  let lastPlayer :=
    Slot (file1 lastPlayer) (Some filename) (name lastPlayer) (startTime lastPlayer) in
  let lastPlayer :=
    match playerName with
    | Some given =>
        if truthyStr given
        then Slot (file1 lastPlayer) (file2 lastPlayer) given (startTime lastPlayer)
        else lastPlayer
    | None => lastPlayer
    end in
  Slot (file1 lastPlayer) (file2 lastPlayer) (name lastPlayer) None.

(** *** The process-wide server *)

Module Shared.

(** The turn logic of [POST /api/record-first-audio] once the clip is
    stored under [filename]: status, guard, push.  [now] is the clock
    read by the status, [stamp] the one pushed. *)
Definition recordFirst (sharedGameState : GameState) (filename : string)
  (playerName : option string) (now stamp : Z) : response * GameState :=
  let (playerStatus, sharedGameState) := getCurrentPlayerStatus sharedGameState now in
  if negb (PlayerStatus.canRecordFirst playerStatus)
  then (BadRequest "Not ready to record first audio", sharedGameState)
  else
    let playerIdx := List.length sharedGameState in
    (Success filename,
     sharedGameState ++
       [Slot (Some filename) None
             (orElse playerName ("Spieler " ++ decimal (playerIdx + 1))%string)
             (Some stamp)]).

(** The turn logic of [POST /api/record-second-audio]. *)
Definition recordSecond (sharedGameState : GameState) (filename : string)
  (playerName : option string) (now : Z) : response * GameState :=
  let (playerStatus, sharedGameState) := getCurrentPlayerStatus sharedGameState now in
  if negb (PlayerStatus.canRecordSecond playerStatus)
  then (BadRequest "Not ready to record second audio", sharedGameState)
  else
    match unsnoc sharedGameState with
    | Some (earlier, lastPlayer) =>
        (Success filename, earlier ++ [completeLast lastPlayer filename playerName])
    | None => (ServerError, sharedGameState)   (* writing into undefined throws *)
    end.

(** [saveGameState]: the content of [game-state.json] after the call.
    A write that throws is logged and leaves the file as it was. *)
Definition saveGameState (sharedGameState : GameState) (writeOk : bool)
  (file : option string) : option string :=
  if writeOk then Some (JSON_stringify (toJson sharedGameState)) else file.

(** [loadGameState]: the array after the call.  Without a file it stays
    as it is.  [None] is a file this model has no game for: text the
    parser above does not read, or JSON that is not an array of
    four-element entries; [loadedGameState] below reads arrays of
    entries of any length. *)
Definition loadGameState (file : option string) (sharedGameState : GameState)
  : option GameState :=
  match file with
  | None => Some sharedGameState
  | Some data =>
      match JSON_parse data with
      | Some v => ofJson v
      | None => None
      end
  end.

(** [POST /api/reset-game]. *)
Definition reset : GameState := [].

(** [POST /api/record-first-audio], the whole handler. *)
Definition recordFirstAudio (req : body) (io : readings)
  (sharedGameState : GameState) : response * GameState :=
  if negb (truthy (audioData req))
  then (BadRequest "No audio data received", sharedGameState)
  else
    let (playerStatus, sharedGameState) :=
      getCurrentPlayerStatus sharedGameState (statusNow io) in
    if negb (PlayerStatus.canRecordFirst playerStatus)
    then (BadRequest "Not ready to record first audio", sharedGameState)
    else
      let playerIdx := List.length sharedGameState in
      match mimeType req with
      | None => (ServerError, sharedGameState)   (* undefined.includes throws *)
      | Some mime =>
          let filename := generateFilename playerIdx "1" io mime in
          if negb (diskOk io) then (ServerError, sharedGameState)
          else
            (Success filename,
             sharedGameState ++
               [Slot (Some filename) None
                     (orElse (playerName req)
                             ("Spieler " ++ decimal (playerIdx + 1))%string)
                     (Some (pushNow io))])
      end.

(** [POST /api/record-second-audio], the whole handler. *)
Definition recordSecondAudio (req : body) (io : readings)
  (sharedGameState : GameState) : response * GameState :=
  if negb (truthy (audioData req))
  then (BadRequest "No audio data received", sharedGameState)
  else
    let (playerStatus, sharedGameState) :=
      getCurrentPlayerStatus sharedGameState (statusNow io) in
    if negb (PlayerStatus.canRecordSecond playerStatus)
    then (BadRequest "Not ready to record second audio", sharedGameState)
    else
      let playerIdx := (List.length sharedGameState - 1)%nat in
      match mimeType req with
      | None => (ServerError, sharedGameState)
      | Some mime =>
          let filename := generateFilename playerIdx "2" io mime in
          if negb (diskOk io) then (ServerError, sharedGameState)
          else
            match unsnoc sharedGameState with
            | Some (earlier, lastPlayer) =>
                (Success filename,
                 earlier ++ [completeLast lastPlayer filename (playerName req)])
            | None => (ServerError, sharedGameState)
            end
      end.

End Shared.

(** *** The session server, [server.js] *)

Module Session.

Definition recordFirst (gameState : GameState) (filename : string)
  (playerName : option string) (now stamp : Z) : response * GameState :=
  let (playerStatus, gameState) := getCurrentPlayerStatus gameState now in
  if negb (PlayerStatus.isNewPlayer playerStatus)
  then (BadRequest "Not ready for new player", gameState)
  else
    let playerIdx := List.length gameState in
    (Success filename,
     gameState ++
       [Slot (Some filename) None
             (orElse playerName ("Player " ++ decimal (playerIdx + 1))%string)
             (Some stamp)]).

Definition recordSecond (gameState : GameState) (filename : string)
  (playerName : option string) (now : Z) : response * GameState :=
  let (playerStatus, gameState) := getCurrentPlayerStatus gameState now in
  if negb (PlayerStatus.needsSecondFile playerStatus)
  then (BadRequest "Not ready for second file", gameState)
  else
    match unsnoc gameState with
    | Some (earlier, lastPlayer) =>
        (Success filename, earlier ++ [completeLast lastPlayer filename playerName])
    | None => (ServerError, gameState)
    end.

(** [POST /api/record-first-audio], the whole handler. *)
Definition recordFirstAudio (req : body) (io : readings)
  (gameState : GameState) : response * GameState :=
  if negb (truthy (audioData req))
  then (BadRequest "No audio data received", gameState)
  else
    let (playerStatus, gameState) :=
      getCurrentPlayerStatus gameState (statusNow io) in
    if negb (PlayerStatus.isNewPlayer playerStatus)
    then (BadRequest "Not ready for new player", gameState)
    else
      let playerIdx := List.length gameState in
      match mimeType req with
      | None => (ServerError, gameState)
      | Some mime =>
          let filename := generateFilename playerIdx "1" io mime in
          if negb (diskOk io) then (ServerError, gameState)
          else
            (Success filename,
             gameState ++
               [Slot (Some filename) None
                     (orElse (playerName req)
                             ("Player " ++ decimal (playerIdx + 1))%string)
                     (Some (pushNow io))])
      end.

(** [POST /api/record-second-audio], the whole handler. *)
Definition recordSecondAudio (req : body) (io : readings)
  (gameState : GameState) : response * GameState :=
  if negb (truthy (audioData req))
  then (BadRequest "No audio data received", gameState)
  else
    let (playerStatus, gameState) :=
      getCurrentPlayerStatus gameState (statusNow io) in
    if negb (PlayerStatus.needsSecondFile playerStatus)
    then (BadRequest "Not ready for second file", gameState)
    else
      let playerIdx := (List.length gameState - 1)%nat in
      match mimeType req with
      | None => (ServerError, gameState)
      | Some mime =>
          let filename := generateFilename playerIdx "2" io mime in
          if negb (diskOk io) then (ServerError, gameState)
          else
            match unsnoc gameState with
            | Some (earlier, lastPlayer) =>
                (Success filename,
                 earlier ++ [completeLast lastPlayer filename (playerName req)])
            | None => (ServerError, gameState)
            end
      end.

End Session.

(** ** Reachable games and their shape *)

(** An entry that is not in the way of the next player: both files are
    there, or the first file is null (never recorded, or reclaimed). *)
Definition settled (s : slot) : bool :=
  match file1 s, file2 s with
  | Some _, Some _ => true
  | None, _ => true
  | Some _, None => false
  end.

(** Only the last entry may be incomplete. *)
Definition onlyLastIncomplete (gameState : GameState) : bool :=
  match unsnoc gameState with
  | None => true
  | Some (earlier, _) => forallb settled earlier
  end.

(** A file reference is null or a non-empty name. *)
Definition refOk (v : option string) : bool :=
  match v with None => true | Some f => truthyStr f end.

Definition refsOk (gameState : GameState) : bool :=
  forallb (fun s => refOk (file1 s) && refOk (file2 s)) gameState.

(** The entries whose first file is [filename]. *)
Definition holdsFirst (filename : string) (s : slot) : bool :=
  match file1 s with Some f => String.eqb f filename | None => false end.

Definition holders (filename : string) (gameState : GameState) : list slot :=
  filter (holdsFirst filename) gameState.

(** The shape the servers keep: proper references, and only the last
    entry incomplete. *)
Definition wellShaped (gameState : GameState) : bool :=
  refsOk gameState && onlyLastIncomplete gameState.

(** One request to the process-wide server: the status poll, the two
    record routes with any body and any readings, the reset. *)
Inductive sharedStep : GameState -> GameState -> Prop :=
| shared_poll gs now :
    sharedStep gs (snd (getCurrentPlayerStatus gs now))
| shared_first gs req io :
    sharedStep gs (snd (Shared.recordFirstAudio req io gs))
| shared_second gs req io :
    sharedStep gs (snd (Shared.recordSecondAudio req io gs))
| shared_reset gs :
    sharedStep gs Shared.reset.

Inductive sharedReachable : GameState -> Prop :=
| shared_start : sharedReachable []
| shared_next gs gs' :
    sharedReachable gs -> sharedStep gs gs' -> sharedReachable gs'.

(** One request to the session server, which has no reset. *)
Inductive sessionStep : GameState -> GameState -> Prop :=
| session_poll gs now :
    sessionStep gs (snd (getCurrentPlayerStatus gs now))
| session_first gs req io :
    sessionStep gs (snd (Session.recordFirstAudio req io gs))
| session_second gs req io :
    sessionStep gs (snd (Session.recordSecondAudio req io gs)).

Inductive sessionReachable : GameState -> Prop :=
| session_start : sessionReachable []
| session_next gs gs' :
    sessionReachable gs -> sessionStep gs gs' -> sessionReachable gs'.

(** ** Reading the visible files *)

(** The field of a visible entry shows the file [ref]. *)
Definition shows (field ref : option string) : Prop :=
  field = ref /\ field <> None.

(** The player after index [i] exists and has a first file. *)
Definition nextHasFirst (gameState : GameState) (i : nat) : Prop :=
  exists next, nth_error gameState (i + 1) = Some next /\ truthy (file1 next) = true.

(** ** The status route *)

Module GameStateResponse.
Record t : Type := Make {
  gameState : GameState;
  playerStatus : PlayerStatus.t;
  visibleFiles : list PlayerFiles.t
}.
End GameStateResponse.

(** [GET /api/game-state] on the game it is given: the status is computed
    first, so the visible files and the array sent are those of the array
    as the status call left it. *)
Definition gameStateRoute (gameState : GameState) (now : Z)
  : GameStateResponse.t * GameState :=
  let (playerStatus, gameState) := getCurrentPlayerStatus gameState now in
  let visibleFiles := getVisibleAudioFiles gameState in
  (GameStateResponse.Make gameState playerStatus visibleFiles, gameState).

(** ** The session server and its sessions *)

(** [initializeGameState(req)]: [session] is [req.session.gameState],
    [None] while it is undefined.  The array returned is the one the
    session holds. *)
Definition initializeGameState (session : option GameState)
  : GameState * option GameState :=
  match session with
  | None => ([], Some [])
  | Some gameState => (gameState, Some gameState)
  end.

(** The three routes of [server.js] on a session: what the request
    writes into the array is written into the session. *)
Definition sessionGameState (now : Z) (session : option GameState)
  : GameStateResponse.t * option GameState :=
  let (gameState, _) := initializeGameState session in
  let (answer, gameState) := gameStateRoute gameState now in
  (answer, Some gameState).

Definition sessionRecordFirst (req : body) (io : readings)
  (session : option GameState) : response * option GameState :=
  if negb (truthy (audioData req))
  then (BadRequest "No audio data received", session)
  else
    let (gameState, _) := initializeGameState session in
    let (answer, gameState) :=
      Session.recordFirstAudio req io gameState in
    (answer, Some gameState).

Definition sessionRecordSecond (req : body) (io : readings)
  (session : option GameState) : response * option GameState :=
  if negb (truthy (audioData req))
  then (BadRequest "No audio data received", session)
  else
    let (gameState, _) := initializeGameState session in
    let (answer, gameState) :=
      Session.recordSecondAudio req io gameState in
    (answer, Some gameState).

(** ** The process-wide server and its file *)

(** The array in memory and the content of [game-state.json], [None]
    while the file does not exist. *)
Record sharedServer : Type := SharedServer {
  memory : GameState;
  stateFile : option string
}.

(** Start of the process: [let sharedGameState = []], then
    [loadGameState()].  [None] as for [loadGameState]. *)
Definition startServer (file : option string) : option sharedServer :=
  match Shared.loadGameState file [] with
  | Some gameState => Some (SharedServer gameState file)
  | None => None
  end.

(** [GET /api/game-state]: nothing is saved. *)
Definition sharedGameState (now : Z) (server : sharedServer)
  : GameStateResponse.t * sharedServer :=
  let (answer, gameState) := gameStateRoute (memory server) now in
  (answer, SharedServer gameState (stateFile server)).

(** The record routes with their [saveGameState()], which runs only on
    the path that pushed or completed an entry.  [saveOk] tells whether
    the write of [game-state.json] returns. *)
Definition sharedRecordFirst (req : body) (io : readings) (saveOk : bool)
  (server : sharedServer) : response * sharedServer :=
  let (answer, gameState) := Shared.recordFirstAudio req io (memory server) in
  match answer with
  | Success _ =>
      (answer,
       SharedServer gameState (Shared.saveGameState gameState saveOk (stateFile server)))
  | _ => (answer, SharedServer gameState (stateFile server))
  end.

Definition sharedRecordSecond (req : body) (io : readings) (saveOk : bool)
  (server : sharedServer) : response * sharedServer :=
  let (answer, gameState) := Shared.recordSecondAudio req io (memory server) in
  match answer with
  | Success _ =>
      (answer,
       SharedServer gameState (Shared.saveGameState gameState saveOk (stateFile server)))
  | _ => (answer, SharedServer gameState (stateFile server))
  end.

(** [POST /api/reset-game]. *)
Definition sharedReset (saveOk : bool) (server : sharedServer) : sharedServer :=
  SharedServer Shared.reset (Shared.saveGameState Shared.reset saveOk (stateFile server)).

(** The file holds the array in memory: a restart would restore it. *)
Definition inSync (server : sharedServer) : Prop :=
  Shared.loadGameState (stateFile server) [] = Some (memory server).

(** ** The shapes of the entries a server builds *)

(** An entry as the routes leave it: nothing recorded (or reclaimed), the
    first file with its timestamp, or both files without timestamp; the
    files and the player have non-empty names. *)
Definition entryShape (s : slot) : bool :=
  truthyStr (name s) &&
  match file1 s, file2 s, startTime s with
  | None, None, None => true
  | Some f, None, Some _ => truthyStr f
  | Some f, Some g, None => truthyStr f && truthyStr g
  | _, _, _ => false
  end.

(** The name of the [k]-th file of the player at index [i] starts with
    [player<i>_file<k>_]. *)
Definition carriesIndex (i : nat) (k : string) (v : option string) : bool :=
  match v with
  | None => true
  | Some f => String.prefix ("player" ++ decimal i ++ "_file" ++ k ++ "_")%string f
  end.

Fixpoint indexedFrom (i : nat) (gameState : list slot) : bool :=
  match gameState with
  | [] => true
  | s :: rest =>
      carriesIndex i "1" (file1 s) && carriesIndex i "2" (file2 s)
      && indexedFrom (S i) rest
  end.

(** The file names an entry holds, each with its place: the index of
    the entry and the number of the file. *)
Definition clipAt (gameState : GameState) (i : nat) (second : bool)
  : option string :=
  match nth_error gameState i with
  | Some s => if second then file2 s else file1 s
  | None => None
  end.

(** ** What a request can do to the array *)

(** Nothing, the write of a status call, a reset, the push of an entry
    built by the first route, or the three writes of the second route
    into the last entry.  [given] is the name as the route computed it. *)
Inductive change : GameState -> GameState -> Prop :=
| change_none gs : change gs gs
| change_status gs now : change gs (snd (getCurrentPlayerStatus gs now))
| change_reset gs : change gs []
| change_push gs now io mime given stamp :
    PlayerStatus.canRecordFirst (fst (getCurrentPlayerStatus gs now)) = true ->
    truthyStr given = true ->
    change gs
      (snd (getCurrentPlayerStatus gs now) ++
       [Slot (Some (generateFilename (List.length gs) "1" io mime)) None given
             (Some stamp)])
| change_complete earlier p io mime playerName :
    truthy (file1 p) = true -> truthy (file2 p) = false ->
    change (earlier ++ [p])
      (earlier ++
       [completeLast p (generateFilename (List.length earlier) "2" io mime)
                     playerName]).

(** ** Entries of any length *)

(** The routes only push four-element entries, which is what [slot]
    holds.  [loadGameState] however takes whatever array the file holds,
    and the status tests [lastPlayer.length >= 4].  Here is the same code
    on arrays of arrays of JSON values, of any length. *)






(** [entry[i] = v] for an index inside the array; the code writes at
    indices below four of entries of at least four elements only. *)
Fixpoint setAt (entry : list json) (i : nat) (v : json) : list json :=
  match entry, i with
  | [], _ => []
  | _ :: rest, O => v :: rest
  | x :: rest, S i' => x :: setAt rest i' v
  end.




(** [getVisibleAudioFiles] on such arrays: the fields are the values the
    entries hold. *)
Module LoadedFiles.
Record t : Type := Make {
  playerNumber : nat;
  playerName : json;
  firstFile : json;
  secondFile : json
}.
End LoadedFiles.





(** [GET /api/game-state] on such arrays. *)
Module LoadedResponse.
Record t : Type := Make {
  gameState : list (list json);
  playerStatus : PlayerStatus.t;
  visibleFiles : list LoadedFiles.t
}.
End LoadedResponse.





(** ** Measures for reading JSON back *)

(** Text made of whitespace only, like an indentation. *)
Fixpoint blank (w : string) : bool :=
  match w with
  | EmptyString => true
  | String c rest => isWhitespace c && blank rest
  end.

(** What follows a value in the text [stringify] writes: nothing, a
    comma, or the line break before a closing bracket. *)
Definition tailOk (rest : string) : bool :=
  match rest with
  | EmptyString => true
  | String c _ => Ascii.eqb c "," || isWhitespace c
  end.

(** The fuel that reading a value back takes. *)
Fixpoint size (v : json) : nat :=
  match v with
  | JArray items => S (list_sum (map (fun x => S (size x)) items))
  | _ => 1
  end.

(** * Properties *)

(** ** The last entry *)

Lemma unsnoc_app {A : Type} (l : list A) (x : A) :
  unsnoc (l ++ [x]) = Some (l, x).
Proof.
  induction l as [|y l IH]; simpl; [reflexivity|].
  rewrite IH. reflexivity.
Qed.

Lemma unsnoc_Some {A : Type} (l init : list A) (x : A) :
  unsnoc l = Some (init, x) -> l = init ++ [x].
Proof.
  revert init x.
  induction l as [|y l IH]; intros init x H; simpl in H; [discriminate|].
  destruct (unsnoc l) as [[i z]|] eqn:E.
  - inversion H; subst. rewrite (IH i x eq_refl). reflexivity.
  - inversion H; subst. destruct l as [|w l]; [reflexivity|].
    simpl in E. destruct (unsnoc l) as [[? ?]|]; discriminate.
Qed.

Lemma unsnoc_None {A : Type} (l : list A) :
  unsnoc l = None -> l = [].
Proof.
  destruct l as [|y l]; [reflexivity|].
  simpl. destruct (unsnoc l) as [[? ?]|]; discriminate.
Qed.

(** Every array is empty or ends in a last entry. *)
Lemma snoc_cases {A : Type} (l : list A) :
  l = [] \/ exists init x, l = init ++ [x].
Proof.
  destruct (unsnoc l) as [[init x]|] eqn:E.
  - right. exists init, x. now apply unsnoc_Some.
  - left. now apply unsnoc_None.
Qed.

(** ** The status, branch by branch *)

Lemma status_empty (now : Z) :
  getCurrentPlayerStatus [] now =
  (PlayerStatus.Make true 1 false true false false, []).
Proof. reflexivity. Qed.

Lemma status_both (earlier : list slot) (p : slot) (now : Z) :
  truthy (file1 p) = true -> truthy (file2 p) = true ->
  getCurrentPlayerStatus (earlier ++ [p]) now =
  (PlayerStatus.Make true (List.length (earlier ++ [p]) + 1) false true false false,
   earlier ++ [p]).
Proof.
  intros H1 H2. unfold getCurrentPlayerStatus.
  rewrite unsnoc_app. simpl. rewrite H1, H2. reflexivity.
Qed.

Lemma status_timeout (earlier : list slot) (p : slot) (now t : Z) :
  truthy (file1 p) = true -> truthy (file2 p) = false ->
  startTime p = Some t -> t <> 0%Z -> (now - t > twoMinutes)%Z ->
  getCurrentPlayerStatus (earlier ++ [p]) now =
  (PlayerStatus.Make true (List.length (earlier ++ [p])) false true false false,
   earlier ++ [clearFirst p]).
Proof.
  intros H1 H2 Ht Hz Hgt. unfold getCurrentPlayerStatus.
  rewrite unsnoc_app. simpl. rewrite H1, H2, Ht. simpl.
  destruct (Z.eqb_spec t 0) as [E|_]; [contradiction|].
  destruct (Z.gtb_spec (now - t) twoMinutes) as [_|N]; [reflexivity|lia].
Qed.

Lemma status_waiting (earlier : list slot) (p : slot) (now : Z) :
  truthy (file1 p) = true -> truthy (file2 p) = false ->
  (forall t, startTime p = Some t -> t = 0%Z \/ (now - t <= twoMinutes)%Z) ->
  getCurrentPlayerStatus (earlier ++ [p]) now =
  (PlayerStatus.Make false (List.length (earlier ++ [p])) true false true false,
   earlier ++ [p]).
Proof.
  intros H1 H2 Ht. unfold getCurrentPlayerStatus.
  rewrite unsnoc_app. simpl. rewrite H1, H2. simpl.
  destruct (startTime p) as [t|]; [|reflexivity].
  destruct (Ht t eq_refl) as [E|L].
  - subst t. reflexivity.
  - simpl. destruct (Z.gtb_spec (now - t) twoMinutes) as [G|_]; [lia|].
    rewrite andb_false_r. reflexivity.
Qed.

Lemma status_nofiles (earlier : list slot) (p : slot) (now : Z) :
  truthy (file1 p) = false ->
  getCurrentPlayerStatus (earlier ++ [p]) now =
  (PlayerStatus.Make false (List.length (earlier ++ [p])) false true false false,
   earlier ++ [p]).
Proof.
  intros H1. unfold getCurrentPlayerStatus.
  rewrite unsnoc_app. simpl. rewrite H1. reflexivity.
Qed.

(** The five results a call can have on four-element entries.  The
    final [return] of the function is reached on shorter entries only;
    for them see [loadedStatus]. *)
Lemma status_cases (gameState : GameState) (now : Z) :
  (gameState = [] /\
   getCurrentPlayerStatus gameState now =
   (PlayerStatus.Make true 1 false true false false, gameState))
  \/
  exists earlier p, gameState = earlier ++ [p] /\
    ((truthy (file1 p) = true /\ truthy (file2 p) = true /\
      getCurrentPlayerStatus gameState now =
      (PlayerStatus.Make true (List.length gameState + 1) false true false false,
       gameState))
     \/
     (truthy (file1 p) = true /\ truthy (file2 p) = false /\
      getCurrentPlayerStatus gameState now =
      (PlayerStatus.Make true (List.length gameState) false true false false,
       earlier ++ [clearFirst p]))
     \/
     (truthy (file1 p) = true /\ truthy (file2 p) = false /\
      getCurrentPlayerStatus gameState now =
      (PlayerStatus.Make false (List.length gameState) true false true false,
       gameState))
     \/
     (truthy (file1 p) = false /\
      getCurrentPlayerStatus gameState now =
      (PlayerStatus.Make false (List.length gameState) false true false false,
       gameState))).
Proof.
  destruct (snoc_cases gameState) as [->|(earlier & p & ->)].
  - left. split; reflexivity.
  - right. exists earlier, p. split; [reflexivity|].
    unfold getCurrentPlayerStatus. rewrite unsnoc_app. simpl.
    destruct (truthy (file1 p)) eqn:H1; simpl.
    + destruct (truthy (file2 p)) eqn:H2; simpl.
      * left. auto.
      * right.
        destruct (truthyNum (startTime p) &&
                  match startTime p with
                  | Some t => (now - t >? twoMinutes)%Z
                  | None => false
                  end).
        -- left. auto.
        -- right. left. auto.
    + right. right. right. auto.
Qed.

(** The call never changes the number of entries. *)
Lemma status_length (gameState : GameState) (now : Z) :
  List.length (snd (getCurrentPlayerStatus gameState now)) = List.length gameState.
Proof.
  destruct (status_cases gameState now)
    as [[_ ->]|(earlier & p & -> & [(_ & _ & ->)|[(_ & _ & ->)|[(_ & _ & ->)|(_ & ->)]]])];
    simpl; try reflexivity.
  rewrite !length_app. reflexivity.
Qed.

(** ** Status of a player who still owes the second file *)

(** C8: when the last entry has its first file, no second file, and a
    timestamp with [now - timestamp <= 120000], the status allows the
    second recording only ([canRecordSecond] and [needsSecondFile] true,
    [canRecordFirst] false), the player number is the number of entries,
    and the array is left as it was. *)
Theorem status_within_timeout (earlier : list slot) (lastPlayer : slot) (now t : Z) :
  truthy (file1 lastPlayer) = true ->
  file2 lastPlayer = None ->
  startTime lastPlayer = Some t ->
  (now - t <= 120000)%Z ->
  let gameState := earlier ++ [lastPlayer] in
  let playerStatus := fst (getCurrentPlayerStatus gameState now) in
  PlayerStatus.canRecordSecond playerStatus = true /\
  PlayerStatus.needsSecondFile playerStatus = true /\
  PlayerStatus.canRecordFirst playerStatus = false /\
  PlayerStatus.isNewPlayer playerStatus = false /\
  PlayerStatus.playerNumber playerStatus = List.length gameState /\
  snd (getCurrentPlayerStatus gameState now) = gameState.
Proof.
  intros H1 H2 Ht Hle gameState playerStatus.
  subst playerStatus gameState.
  rewrite status_waiting.
  - simpl. repeat split; reflexivity.
  - exact H1.
  - rewrite H2. reflexivity.
  - intros t' E. rewrite Ht in E. inversion E; subst t'.
    right. unfold twoMinutes. lia.
Qed.

Lemma status_within_timeout_witness :
  let gameState :=
    [Slot (Some "a.wav") (Some "b.wav") "Alice" None;
     Slot (Some "c.wav") None "Bob" (Some 5000%Z)] in
  PlayerStatus.canRecordSecond (fst (getCurrentPlayerStatus gameState 125000)) = true /\
  PlayerStatus.canRecordFirst (fst (getCurrentPlayerStatus gameState 125000)) = false /\
  PlayerStatus.playerNumber (fst (getCurrentPlayerStatus gameState 125000)) = 2 /\
  snd (getCurrentPlayerStatus gameState 125000) = gameState.
Proof.
  pose proof (status_within_timeout
                [Slot (Some "a.wav") (Some "b.wav") "Alice" None]
                (Slot (Some "c.wav") None "Bob" (Some 5000%Z)) 125000 5000
                eq_refl eq_refl eq_refl ltac:(lia)) as H.
  simpl in H. destruct H as (A & _ & B & _ & C & D).
  repeat split; assumption.
Defined.

(** ** Exactly one recording is allowed *)

(** C10: every entry being a full four-element array, the status allows
    exactly one of the two recordings, [needsSecondFile] equals
    [canRecordSecond], and the object of the final [return], with all
    flags false, is never the result. *)
Theorem status_exactly_one (gameState : GameState) (now : Z) :
  let playerStatus := fst (getCurrentPlayerStatus gameState now) in
  PlayerStatus.canRecordFirst playerStatus =
    negb (PlayerStatus.canRecordSecond playerStatus) /\
  PlayerStatus.needsSecondFile playerStatus =
    PlayerStatus.canRecordSecond playerStatus /\
  playerStatus <>
    PlayerStatus.Make false (List.length gameState) false false false false.
Proof.
  destruct (status_cases gameState now)
    as [[_ ->]|(earlier & p & _ & [(_ & _ & ->)|[(_ & _ & ->)|[(_ & _ & ->)|(_ & ->)]]])];
    simpl; repeat split; try reflexivity; discriminate.
Qed.

(** ** The timeout scenario *)

(** C2, as stated, fails: in [[("a.wav", null, "Alice", 0)]] the timestamp
    [0] is falsy, so the test [recordingStartTime && ...] is false at
    [now = 121000]; nothing is reclaimed and the status is the one that
    waits for the second file. *)
Lemma timeout_scenario_at_zero :
  let gameState := [Slot (Some "a.wav") None "Alice" (Some 0%Z)] in
  getCurrentPlayerStatus gameState 121000 =
    (PlayerStatus.Make false 1 true false true false, gameState) /\
  ~ (snd (getCurrentPlayerStatus gameState 121000) = [Slot None None "Alice" None] /\
     PlayerStatus.isNewPlayer (fst (getCurrentPlayerStatus gameState 121000)) = true /\
     PlayerStatus.canRecordFirst (fst (getCurrentPlayerStatus gameState 121000)) = true /\
     PlayerStatus.playerNumber (fst (getCurrentPlayerStatus gameState 121000)) = 1).
Proof.
  split; [reflexivity|].
  intros (H & _). discriminate H.
Qed.

(** C2, amended: with a timestamp [t] other than [0], the status of
    [[("a.wav", null, "Alice", t)]] computed at [now = t + 121000]
    reclaims the entry: the array becomes [[(null, null, "Alice", null)]],
    still of length one, and the status is that of a new player who may
    record the first file as player number 1. *)
Theorem timeout_scenario (t : Z) :
  t <> 0%Z ->
  getCurrentPlayerStatus [Slot (Some "a.wav") None "Alice" (Some t)] (t + 121000) =
  (PlayerStatus.Make true 1 false true false false,
   [Slot None None "Alice" None]).
Proof.
  intros Ht.
  apply (status_timeout [] (Slot (Some "a.wav") None "Alice" (Some t)) (t + 121000) t);
    try reflexivity; [exact Ht|unfold twoMinutes; lia].
Qed.

Lemma timeout_scenario_witness :
  getCurrentPlayerStatus [Slot (Some "a.wav") None "Alice" (Some 1%Z)] 121001 =
  (PlayerStatus.Make true 1 false true false false,
   [Slot None None "Alice" None]).
Proof.
  apply (timeout_scenario 1). lia.
Defined.

(** ** The end-to-end scenario *)

(** C7: from the empty game, recording the first file "a.wav" as "Alice"
    at time 0 gives [[("a.wav", null, "Alice", 0)]], where the status asks
    player 1 for the second file; recording "b.wav" at time 1000 then
    gives [[("a.wav", "b.wav", "Alice", null)]], where the status lets a
    new player, number 2, record a first file.  Both servers agree. *)
Theorem end_to_end_scenario :
  let one := [Slot (Some "a.wav") None "Alice" (Some 0%Z)] in
  let two := [Slot (Some "a.wav") (Some "b.wav") "Alice" None] in
  Shared.recordFirst [] "a.wav" (Some "Alice") 0 0 = (Success "a.wav", one) /\
  Session.recordFirst [] "a.wav" (Some "Alice") 0 0 = (Success "a.wav", one) /\
  (forall now, getCurrentPlayerStatus one now =
               (PlayerStatus.Make false 1 true false true false, one)) /\
  Shared.recordSecond one "b.wav" (Some "Alice") 1000 = (Success "b.wav", two) /\
  Session.recordSecond one "b.wav" (Some "Alice") 1000 = (Success "b.wav", two) /\
  (forall now, getCurrentPlayerStatus two now =
               (PlayerStatus.Make true 2 false true false false, two)).
Proof.
  repeat split; reflexivity.
Qed.

(** ** The visible files *)

Lemma visibleLoop_acc (gameState : GameState) (rest : list slot) :
  forall i visibleFiles,
    visibleLoop gameState i rest visibleFiles =
    visibleFiles ++ visibleLoop gameState i rest [].
Proof.
  induction rest as [|player rest IH]; intros i acc; simpl.
  - now rewrite app_nil_r.
  - rewrite (IH (S i) (acc ++ _)), (IH (S i) [_]).
    now rewrite <- app_assoc.
Qed.

Lemma visibleLoop_length (gameState : GameState) (rest : list slot) :
  forall i, List.length (visibleLoop gameState i rest []) = List.length rest.
Proof.
  induction rest as [|player rest IH]; intros i; simpl; [reflexivity|].
  rewrite visibleLoop_acc, length_app, IH. reflexivity.
Qed.

Lemma visibleLoop_nth (gameState : GameState) (rest : list slot) :
  forall i k player,
    nth_error rest k = Some player ->
    nth_error (visibleLoop gameState i rest []) k =
    Some (playerFiles gameState (i + k) player).
Proof.
  induction rest as [|p rest IH]; intros i k player H.
  - destruct k; discriminate.
  - simpl. rewrite visibleLoop_acc. destruct k as [|k]; simpl in *.
    + inversion H; subst. now rewrite Nat.add_0_r.
    + rewrite (IH (S i) k player H). f_equal. f_equal. lia.
Qed.

(** One visible entry per player, in order. *)
Lemma visible_length (gameState : GameState) :
  List.length (getVisibleAudioFiles gameState) = List.length gameState.
Proof. apply visibleLoop_length. Qed.

Lemma visible_nth (gameState : GameState) (i : nat) (player : slot) :
  nth_error gameState i = Some player ->
  nth_error (getVisibleAudioFiles gameState) i = Some (playerFiles gameState i player).
Proof.
  intros H. unfold getVisibleAudioFiles.
  now rewrite (visibleLoop_nth gameState gameState 0 i player H).
Qed.

Lemma truthy_not_None (v : option string) : truthy v = true -> v <> None.
Proof. destruct v; [discriminate|discriminate]. Qed.

Lemma refOk_truthy (v : option string) :
  refOk v = true -> (truthy v = true <-> v <> None).
Proof.
  destruct v as [f|]; simpl; intros H.
  - rewrite H. split; [discriminate|reflexivity].
  - split; [discriminate|congruence].
Qed.

(** The second file of the entry at index [i]. *)
Lemma playerFiles_second (gameState : GameState) (i : nat) (player : slot) :
  (truthy (file2 player) = true /\ nextHasFirst gameState i ->
   PlayerFiles.secondFile (playerFiles gameState i player) = file2 player) /\
  (~ (truthy (file2 player) = true /\ nextHasFirst gameState i) ->
   PlayerFiles.secondFile (playerFiles gameState i player) = None).
Proof.
  unfold playerFiles, nextHasFirst; simpl. split.
  - intros (H2 & next & Hn & Hf). rewrite H2, Hn, Hf.
    assert (i + 1 < List.length gameState) as L
      by (apply nth_error_Some; congruence).
    apply Nat.ltb_lt in L. rewrite L. reflexivity.
  - intros N. destruct (truthy (file2 player)) eqn:H2; [|reflexivity].
    destruct (i + 1 <? List.length gameState)%nat; simpl; [|reflexivity].
    destruct (nth_error gameState (i + 1)) as [next|] eqn:Hn; [|reflexivity].
    destruct (truthy (file1 next)) eqn:Hf; [|reflexivity].
    exfalso. apply N. split; [reflexivity|]. exists next. auto.
Qed.

(** C6: the entry for the player at index [i] shows the second file if
    and only if that file is there, a player exists at index [i + 1] and
    that player has a first file; in every other case its second file is
    null.  The first file is shown exactly when it is there, and is null
    otherwise.  "Is there" is the test the code makes, which on the
    references a server stores (null or a non-empty name) is "is not
    null": the last two parts say so. *)
Theorem visible_entry (gameState : GameState) (i : nat) (player : slot) :
  nth_error gameState i = Some player ->
  exists entry,
    nth_error (getVisibleAudioFiles gameState) i = Some entry /\
    PlayerFiles.playerNumber entry = i + 1 /\
    (shows (PlayerFiles.secondFile entry) (file2 player) <->
     truthy (file2 player) = true /\ nextHasFirst gameState i) /\
    (~ (truthy (file2 player) = true /\ nextHasFirst gameState i) ->
     PlayerFiles.secondFile entry = None) /\
    (shows (PlayerFiles.firstFile entry) (file1 player) <->
     truthy (file1 player) = true) /\
    (truthy (file1 player) = false -> PlayerFiles.firstFile entry = None) /\
    (refsOk gameState = true ->
     (shows (PlayerFiles.secondFile entry) (file2 player) <->
      file2 player <> None /\
      exists next, nth_error gameState (i + 1) = Some next /\ file1 next <> None)) /\
    (refsOk gameState = true ->
     (shows (PlayerFiles.firstFile entry) (file1 player) <-> file1 player <> None)).
Proof.
  intros H. exists (playerFiles gameState i player).
  destruct (playerFiles_second gameState i player) as [Hyes Hno].
  assert (shows (PlayerFiles.secondFile (playerFiles gameState i player)) (file2 player) <->
          truthy (file2 player) = true /\ nextHasFirst gameState i) as Hsecond.
  { split.
    - intros [E N].
      destruct (truthy (file2 player)) eqn:H2.
      + split; [reflexivity|].
        unfold playerFiles in N; simpl in N. rewrite H2 in N.
        destruct (i + 1 <? List.length gameState)%nat; simpl in N; [|congruence].
        destruct (nth_error gameState (i + 1)) as [next|] eqn:Hn; [|congruence].
        destruct (truthy (file1 next)) eqn:Hf; [|congruence].
        exists next. auto.
      + exfalso. apply N. unfold playerFiles; simpl. now rewrite H2.
    - intros C. split; [now apply Hyes|].
      rewrite (Hyes C). apply truthy_not_None, C. }
  assert (shows (PlayerFiles.firstFile (playerFiles gameState i player)) (file1 player) <->
          truthy (file1 player) = true) as Hfirst.
  { unfold shows, playerFiles; simpl.
    destruct (truthy (file1 player)) eqn:H1.
    - split; [reflexivity|]. intros _. split; [reflexivity|].
      now apply truthy_not_None.
    - split; [intros [_ N]; congruence|discriminate]. }
  split; [now apply visible_nth|].
  split; [reflexivity|].
  split; [exact Hsecond|].
  split; [exact Hno|].
  split; [exact Hfirst|].
  split; [unfold playerFiles; simpl; intros ->; reflexivity|].
  assert (forall k s, refsOk gameState = true -> nth_error gameState k = Some s ->
                      refOk (file1 s) = true /\ refOk (file2 s) = true) as Hok.
  { intros k s R Hs. unfold refsOk in R. rewrite forallb_forall in R.
    apply andb_true_iff. apply R. eapply nth_error_In; eassumption. }
  split.
  - intros R. rewrite Hsecond.
    destruct (Hok i player R H) as [_ R2].
    rewrite (refOk_truthy _ R2). unfold nextHasFirst.
    split; intros (A & next & Hn & Hf); (split; [exact A|]); exists next;
      (split; [exact Hn|]); destruct (Hok _ _ R Hn) as [R1 _];
      now apply (refOk_truthy _ R1).
  - intros R. rewrite Hfirst.
    destruct (Hok i player R H) as [R1 _]. now apply refOk_truthy.
Qed.

Lemma visible_entry_witness :
  let gameState :=
    [Slot (Some "a.wav") (Some "b.wav") "Alice" None;
     Slot (Some "c.wav") None "Bob" (Some 7%Z)] in
  exists entry,
    nth_error (getVisibleAudioFiles gameState) 0 = Some entry /\
    PlayerFiles.secondFile entry = Some "b.wav".
Proof.
  intros gameState.
  destruct (visible_entry gameState 0 (Slot (Some "a.wav") (Some "b.wav") "Alice" None) eq_refl)
    as (entry & Hn & _ & Hs & _).
  exists entry. split; [exact Hn|].
  apply Hs. split; [reflexivity|].
  exists (Slot (Some "c.wav") None "Bob" (Some 7%Z)). split; reflexivity.
Defined.

(** The two-player case of the claim: the second file of player 1 is
    hidden while player 2 has no first file, and visible once there is one. *)
Example visible_two_players :
  map PlayerFiles.secondFile
      (getVisibleAudioFiles
         [Slot (Some "a.wav") (Some "b.wav") "Alice" None;
          Slot None None "Bob" None]) = [None; None] /\
  map PlayerFiles.secondFile
      (getVisibleAudioFiles
         [Slot (Some "a.wav") (Some "b.wav") "Alice" None;
          Slot (Some "c.wav") None "Bob" (Some 7%Z)]) = [Some "b.wav"; None].
Proof. split; reflexivity. Qed.

(** ** The guard of the first recording *)

(** In the process-wide server the first recording is refused exactly
    when the recomputed status has [canRecordFirst] false, and otherwise
    the new entry is pushed. *)
Lemma shared_recordFirst_guard (gameState : GameState) (filename : string)
  (playerName : option string) (now stamp : Z) :
  let playerStatus := fst (getCurrentPlayerStatus gameState now) in
  (fst (Shared.recordFirst gameState filename playerName now stamp) =
     BadRequest "Not ready to record first audio" <->
   PlayerStatus.canRecordFirst playerStatus = false) /\
  (PlayerStatus.canRecordFirst playerStatus = true ->
   fst (Shared.recordFirst gameState filename playerName now stamp) = Success filename /\
   exists entry,
     snd (Shared.recordFirst gameState filename playerName now stamp) =
     snd (getCurrentPlayerStatus gameState now) ++ [entry] /\
     file1 entry = Some filename).
Proof.
  unfold Shared.recordFirst.
  destruct (getCurrentPlayerStatus gameState now) as [playerStatus gs'].
  simpl. destruct (PlayerStatus.canRecordFirst playerStatus); simpl.
  - split; [split; discriminate|].
    intros _. split; [reflexivity|]. eexists. split; reflexivity.
  - split; [split; reflexivity|discriminate].
Qed.

(** The whole handler, given the audio data: the same guard; past it, a
    missing mime type or a failed write of the clip ends in the catch
    block, and otherwise the handler is the turn logic at the generated
    file name. *)
Lemma shared_recordFirstAudio_guard (req : body) (io : readings)
  (gameState : GameState) :
  truthy (audioData req) = true ->
  let playerStatus := fst (getCurrentPlayerStatus gameState (statusNow io)) in
  (fst (Shared.recordFirstAudio req io gameState) =
     BadRequest "Not ready to record first audio" <->
   PlayerStatus.canRecordFirst playerStatus = false) /\
  (PlayerStatus.canRecordFirst playerStatus = true ->
   forall mime, mimeType req = Some mime -> diskOk io = true ->
   Shared.recordFirstAudio req io gameState =
   Shared.recordFirst gameState
     (generateFilename (List.length gameState) "1" io mime)
     (playerName req) (statusNow io) (pushNow io)).
Proof.
  intros Ha. unfold Shared.recordFirstAudio, Shared.recordFirst. rewrite Ha. simpl.
  pose proof (status_length gameState (statusNow io)) as L.
  destruct (getCurrentPlayerStatus gameState (statusNow io)) as [playerStatus gs'].
  simpl in *. destruct (PlayerStatus.canRecordFirst playerStatus); simpl.
  - split.
    + split; [|discriminate].
      destruct (mimeType req); [destruct (diskOk io)|]; discriminate.
    + intros _ mime -> ->. simpl. rewrite L. reflexivity.
  - split; [split; reflexivity|discriminate].
Qed.

(** The other three handlers, when the request is complete and the clip
    reaches the disk, are their turn logic at the generated file name. *)
Lemma shared_recordSecondAudio_logic (req : body) (io : readings)
  (gameState : GameState) (mime : string) :
  truthy (audioData req) = true -> mimeType req = Some mime -> diskOk io = true ->
  Shared.recordSecondAudio req io gameState =
  Shared.recordSecond gameState
    (generateFilename (List.length gameState - 1) "2" io mime)
    (playerName req) (statusNow io).
Proof.
  intros Ha Hm Hd. unfold Shared.recordSecondAudio, Shared.recordSecond.
  rewrite Ha, Hm, Hd. simpl.
  pose proof (status_length gameState (statusNow io)) as L.
  destruct (getCurrentPlayerStatus gameState (statusNow io)) as [playerStatus gs'].
  simpl in *. rewrite L. reflexivity.
Qed.

Lemma session_recordFirstAudio_logic (req : body) (io : readings)
  (gameState : GameState) (mime : string) :
  truthy (audioData req) = true -> mimeType req = Some mime -> diskOk io = true ->
  Session.recordFirstAudio req io gameState =
  Session.recordFirst gameState
    (generateFilename (List.length gameState) "1" io mime)
    (playerName req) (statusNow io) (pushNow io).
Proof.
  intros Ha Hm Hd. unfold Session.recordFirstAudio, Session.recordFirst.
  rewrite Ha, Hm, Hd. simpl.
  pose proof (status_length gameState (statusNow io)) as L.
  destruct (getCurrentPlayerStatus gameState (statusNow io)) as [playerStatus gs'].
  simpl in *. rewrite L. reflexivity.
Qed.

Lemma session_recordSecondAudio_logic (req : body) (io : readings)
  (gameState : GameState) (mime : string) :
  truthy (audioData req) = true -> mimeType req = Some mime -> diskOk io = true ->
  Session.recordSecondAudio req io gameState =
  Session.recordSecond gameState
    (generateFilename (List.length gameState - 1) "2" io mime)
    (playerName req) (statusNow io).
Proof.
  intros Ha Hm Hd. unfold Session.recordSecondAudio, Session.recordSecond.
  rewrite Ha, Hm, Hd. simpl.
  pose proof (status_length gameState (statusNow io)) as L.
  destruct (getCurrentPlayerStatus gameState (statusNow io)) as [playerStatus gs'].
  simpl in *. rewrite L. reflexivity.
Qed.

(** C3 on [server.js]: a player records a first file at time 1 and lets
    the two minutes pass; the status poll at 120002 reclaims the entry.
    From then on the status has [canRecordFirst] true, yet the route,
    which tests [isNewPlayer], refuses the first recording. *)
Theorem session_recordFirst_refuses_reclaimed :
  let started := snd (Session.recordFirst [] "a.wav" (Some "Alice") 1 1) in
  let reclaimed := snd (getCurrentPlayerStatus started 120002) in
  reclaimed = [Slot None None "Alice" None] /\
  PlayerStatus.canRecordFirst (fst (getCurrentPlayerStatus reclaimed 120003)) = true /\
  Session.recordFirst reclaimed "b.wav" (Some "Bob") 120003 120003 =
    (BadRequest "Not ready for new player", reclaimed) /\
  Shared.recordFirst reclaimed "b.wav" (Some "Bob") 120003 120003 =
    (Success "b.wav", reclaimed ++ [Slot (Some "b.wav") None "Bob" (Some 120003%Z)]).
Proof. repeat split; reflexivity. Qed.

(** ** A refused recording *)

(** C4, as stated, fails for the second recording: the status that
    refuses it has first reclaimed the timed-out entry. *)
Lemma refused_second_recording_reclaims :
  let gameState := [Slot (Some "a.wav") None "Alice" (Some 1%Z)] in
  PlayerStatus.canRecordSecond (fst (getCurrentPlayerStatus gameState 120002)) = false /\
  Shared.recordSecond gameState "b.wav" (Some "Alice") 120002 =
    (BadRequest "Not ready to record second audio", [Slot None None "Alice" None]) /\
  snd (Shared.recordSecond gameState "b.wav" (Some "Alice") 120002) <> gameState.
Proof. repeat split; try reflexivity. discriminate. Qed.

(** What a status call does to the array: nothing, or the reclaim of a
    timed-out last entry. *)
Lemma status_effect (gameState : GameState) (now : Z) :
  snd (getCurrentPlayerStatus gameState now) = gameState \/
  exists earlier p t,
    gameState = earlier ++ [p] /\
    truthy (file1 p) = true /\ truthy (file2 p) = false /\
    startTime p = Some t /\ t <> 0%Z /\ (now - t > 120000)%Z /\
    PlayerStatus.canRecordFirst (fst (getCurrentPlayerStatus gameState now)) = true /\
    snd (getCurrentPlayerStatus gameState now) = earlier ++ [clearFirst p].
Proof.
  destruct (snoc_cases gameState) as [->|(earlier & p & ->)]; [left; reflexivity|].
  unfold getCurrentPlayerStatus. rewrite unsnoc_app. simpl.
  destruct (truthy (file1 p)) eqn:H1; simpl; [|left; reflexivity].
  destruct (truthy (file2 p)) eqn:H2; simpl; [left; reflexivity|].
  destruct (startTime p) as [t|] eqn:Ht; simpl; [|left; reflexivity].
  destruct (Z.eqb_spec t 0) as [E|NE]; simpl; [left; reflexivity|].
  destruct (Z.gtb_spec (now - t) twoMinutes) as [G|_]; simpl; [|left; reflexivity].
  right. exists earlier, p, t. unfold twoMinutes in G.
  repeat split; auto; lia.
Qed.

(** C4, amended: a first recording whose precondition is false is refused
    and leaves the array exactly as it was.  A second recording whose
    precondition is false is refused and makes none of its own writes:
    the array is left as the status call leaves it, which is unchanged
    unless the last entry had timed out, and then only that entry's
    first file and timestamp are cleared. *)
Theorem refused_recording_state (gameState : GameState) (filename : string)
  (playerName : option string) (now stamp : Z) :
  let playerStatus := fst (getCurrentPlayerStatus gameState now) in
  (PlayerStatus.canRecordFirst playerStatus = false ->
   Shared.recordFirst gameState filename playerName now stamp =
   (BadRequest "Not ready to record first audio", gameState)) /\
  (PlayerStatus.canRecordSecond playerStatus = false ->
   Shared.recordSecond gameState filename playerName now =
   (BadRequest "Not ready to record second audio",
    snd (getCurrentPlayerStatus gameState now)) /\
   (snd (getCurrentPlayerStatus gameState now) = gameState \/
    exists earlier p t,
      gameState = earlier ++ [p] /\ startTime p = Some t /\ (now - t > 120000)%Z /\
      snd (getCurrentPlayerStatus gameState now) = earlier ++ [clearFirst p])).
Proof.
  simpl. split.
  - intros H. unfold Shared.recordFirst.
    destruct (status_effect gameState now) as [E|(earlier & p & t & _ & _ & _ & _ & _ & _ & C & _)].
    + destruct (getCurrentPlayerStatus gameState now) as [playerStatus gs'].
      simpl in *. rewrite H. simpl. now subst gs'.
    + congruence.
  - intros H. split.
    + unfold Shared.recordSecond.
      destruct (getCurrentPlayerStatus gameState now) as [playerStatus gs'].
      simpl in *. rewrite H. reflexivity.
    + destruct (status_effect gameState now)
        as [E|(earlier & p & t & -> & _ & _ & Ht & _ & G & _ & E)].
      * left. exact E.
      * right. exists earlier, p, t. auto.
Qed.

Lemma refused_recording_state_witness :
  Shared.recordFirst [Slot (Some "a.wav") None "Alice" (Some 1%Z)]
                     "c.wav" (Some "Bob") 5 5 =
    (BadRequest "Not ready to record first audio",
     [Slot (Some "a.wav") None "Alice" (Some 1%Z)]) /\
  Shared.recordSecond [Slot (Some "a.wav") (Some "b.wav") "Alice" None]
                      "c.wav" (Some "Bob") 5 =
    (BadRequest "Not ready to record second audio",
     [Slot (Some "a.wav") (Some "b.wav") "Alice" None]).
Proof.
  split.
  - apply (proj1 (refused_recording_state
                    [Slot (Some "a.wav") None "Alice" (Some 1%Z)]
                    "c.wav" (Some "Bob") 5 5)).
    reflexivity.
  - apply (proj2 (refused_recording_state
                    [Slot (Some "a.wav") (Some "b.wav") "Alice" None]
                    "c.wav" (Some "Bob") 5 5)).
    reflexivity.
Defined.

(** The session server refuses in the same way. *)
Lemma session_refused_recording_state (gameState : GameState) (filename : string)
  (playerName : option string) (now stamp : Z) :
  let playerStatus := fst (getCurrentPlayerStatus gameState now) in
  (PlayerStatus.isNewPlayer playerStatus = false ->
   Session.recordFirst gameState filename playerName now stamp =
   (BadRequest "Not ready for new player", gameState)) /\
  (PlayerStatus.needsSecondFile playerStatus = false ->
   Session.recordSecond gameState filename playerName now =
   (BadRequest "Not ready for second file",
    snd (getCurrentPlayerStatus gameState now))).
Proof.
  simpl. split; intros H.
  - unfold Session.recordFirst.
    destruct (status_cases gameState now)
      as [[_ E]|(earlier & p & _ & [(_ & _ & E)|[(_ & _ & E)|[(_ & _ & E)|(_ & E)]]])];
      rewrite E in *; simpl in *; try discriminate; reflexivity.
  - unfold Session.recordSecond.
    destruct (getCurrentPlayerStatus gameState now) as [playerStatus gs'].
    simpl in *. rewrite H. reflexivity.
Qed.

(** ** Where the first recording goes *)

(** C1 fails on both servers, which never write a first recording into
    an existing entry.  Let the last entry be a reclaimed one, its two
    files null.  The status allows a first recording and gives the
    player the number of that entry, the length of the array.  The
    process-wide server then pushes a further entry: the array grows by
    one, the clip is stored one place after the number the status gave,
    under the default name of the number after it, and the reclaimed
    entry stays without files at its place.  [server.js] refuses the
    request and leaves the array as it is. *)
Theorem reclaimed_entry_not_reused (earlier : list slot) (who : string)
  (time : option Z) (filename : string) (playerName : option string)
  (now stamp : Z) :
  let gameState := earlier ++ [Slot None None who time] in
  let playerStatus := fst (getCurrentPlayerStatus gameState now) in
  PlayerStatus.canRecordFirst playerStatus = true /\
  PlayerStatus.playerNumber playerStatus = List.length gameState /\
  Shared.recordFirst gameState filename playerName now stamp =
    (Success filename,
     gameState ++
       [Slot (Some filename) None
             (orElse playerName
                     ("Spieler " ++ decimal (List.length gameState + 1))%string)
             (Some stamp)]) /\
  nth_error (snd (Shared.recordFirst gameState filename playerName now stamp))
            (List.length earlier) = Some (Slot None None who time) /\
  Session.recordFirst gameState filename playerName now stamp =
    (BadRequest "Not ready for new player", gameState).
Proof.
  intros gameState playerStatus.
  assert (getCurrentPlayerStatus gameState now =
          (PlayerStatus.Make false (List.length gameState) false true false false,
           gameState)) as E by (now apply status_nofiles).
  subst playerStatus. unfold Shared.recordFirst, Session.recordFirst.
  rewrite E. cbn [fst snd PlayerStatus.canRecordFirst PlayerStatus.playerNumber
                  PlayerStatus.isNewPlayer negb].
  repeat split.
  subst gameState. rewrite <- app_assoc.
  rewrite nth_error_app2 by lia. now rewrite Nat.sub_diag.
Qed.

(** A game of the process-wide server from the start.  Alice records
    both files, Bob a first file at time 3; he lets the two minutes
    pass and a poll reclaims his entry, announcing player 2.  Carol's
    first recording is then stored as a third entry, under the default
    name of player 3.  The second entry has no first file and never
    gets one, so Alice's second file, shown once the next entry has a
    first file, stays hidden, also after Carol's second and Dave's first
    recording. *)
Lemma first_recording_after_reclaim :
  let alice1 := snd (Shared.recordFirst [] "a1.wav" (Some "Alice") 1 1) in
  let alice2 := snd (Shared.recordSecond alice1 "a2.wav" None 2) in
  let bob1 := snd (Shared.recordFirst alice2 "b1.wav" (Some "Bob") 3 3) in
  let reclaimed := getCurrentPlayerStatus bob1 120004 in
  let carol1 := snd (Shared.recordFirst (snd reclaimed) "c1.wav" None 120005 120005) in
  let carol2 := snd (Shared.recordSecond carol1 "c2.wav" None 120006) in
  let dave1 := snd (Shared.recordFirst carol2 "d1.wav" (Some "Dave") 120007 120007) in
  snd reclaimed = [Slot (Some "a1.wav") (Some "a2.wav") "Alice" None;
                   Slot None None "Bob" None] /\
  PlayerStatus.canRecordFirst (fst reclaimed) = true /\
  PlayerStatus.playerNumber (fst reclaimed) = 2 /\
  carol1 = [Slot (Some "a1.wav") (Some "a2.wav") "Alice" None;
            Slot None None "Bob" None;
            Slot (Some "c1.wav") None "Spieler 3" (Some 120005%Z)] /\
  List.length carol1 <> List.length (snd reclaimed) /\
  map PlayerFiles.secondFile (getVisibleAudioFiles carol1) = [None; None; None] /\
  getVisibleAudioFiles dave1 =
    [PlayerFiles.Make 1 "Alice" (Some "a1.wav") None;
     PlayerFiles.Make 2 "Bob" None None;
     PlayerFiles.Make 3 "Spieler 3" (Some "c1.wav") (Some "c2.wav");
     PlayerFiles.Make 4 "Dave" (Some "d1.wav") None].
Proof. repeat split; try reflexivity. discriminate. Qed.

Lemma holders_app (filename : string) (a b : GameState) :
  holders filename (a ++ b) = holders filename a ++ holders filename b.
Proof. apply filter_app. Qed.

(** A status call gives no entry a first file. *)
Lemma holders_status (filename : string) (gameState : GameState) (now : Z) :
  holders filename gameState = [] ->
  holders filename (snd (getCurrentPlayerStatus gameState now)) = [].
Proof.
  intros H.
  destruct (status_effect gameState now)
    as [->|(earlier & p & t & -> & _ & _ & _ & _ & _ & _ & ->)]; [exact H|].
  rewrite holders_app in *. apply app_eq_nil in H. destruct H as [-> _].
  reflexivity.
Qed.

(** What the process-wide server does with every first recording that
    the status allows: it pushes a new entry after the existing ones,
    which stay as the status call left them.  The array grows by one,
    and if no entry had [filename] as its first file, exactly one entry,
    the new last one, has it afterwards. *)
Lemma first_recording_appends (gameState : GameState) (filename : string)
  (playerName : option string) (now stamp : Z) :
  PlayerStatus.canRecordFirst (fst (getCurrentPlayerStatus gameState now)) = true ->
  exists entry,
    Shared.recordFirst gameState filename playerName now stamp =
      (Success filename, snd (getCurrentPlayerStatus gameState now) ++ [entry]) /\
    file1 entry = Some filename /\ file2 entry = None /\
    startTime entry = Some stamp /\
    List.length (snd (Shared.recordFirst gameState filename playerName now stamp)) =
      List.length gameState + 1 /\
    (holders filename gameState = [] ->
     holders filename (snd (Shared.recordFirst gameState filename playerName now stamp)) =
       [entry]).
Proof.
  intros H.
  pose proof (status_length gameState now) as L.
  pose proof (holders_status filename gameState now) as F.
  unfold Shared.recordFirst.
  destruct (getCurrentPlayerStatus gameState now) as [playerStatus gs'].
  simpl in *. rewrite H. simpl.
  eexists. split; [reflexivity|]. simpl.
  repeat split.
  - rewrite length_app, L. reflexivity.
  - intros E. rewrite holders_app, (F E). simpl.
    unfold holdsFirst. simpl. rewrite String.eqb_refl. reflexivity.
Qed.

Lemma first_recording_appends_witness :
  exists entry,
    Shared.recordFirst [Slot (Some "a.wav") None "Alice" (Some 1%Z)]
                       "b.wav" (Some "Bob") 120002 120002 =
      (Success "b.wav", [Slot None None "Alice" None] ++ [entry]) /\
    file1 entry = Some "b.wav" /\
    holders "b.wav"
      (snd (Shared.recordFirst [Slot (Some "a.wav") None "Alice" (Some 1%Z)]
                               "b.wav" (Some "Bob") 120002 120002)) = [entry].
Proof.
  destruct (first_recording_appends
              [Slot (Some "a.wav") None "Alice" (Some 1%Z)]
              "b.wav" (Some "Bob") 120002 120002 eq_refl)
    as (entry & E & F & _ & _ & _ & H).
  exists entry. split; [exact E|]. split; [exact F|].
  apply H. reflexivity.
Defined.

(** The session server pushes in the same way whenever it accepts,
    which is when the status has [isNewPlayer]. *)
Lemma session_first_recording_appends (gameState : GameState) (filename : string)
  (playerName : option string) (now stamp : Z) :
  PlayerStatus.isNewPlayer (fst (getCurrentPlayerStatus gameState now)) = true ->
  exists entry,
    Session.recordFirst gameState filename playerName now stamp =
      (Success filename, snd (getCurrentPlayerStatus gameState now) ++ [entry]) /\
    file1 entry = Some filename /\ file2 entry = None /\
    startTime entry = Some stamp /\
    List.length (snd (Session.recordFirst gameState filename playerName now stamp)) =
      List.length gameState + 1.
Proof.
  intros H.
  pose proof (status_length gameState now) as L.
  unfold Session.recordFirst.
  destruct (getCurrentPlayerStatus gameState now) as [playerStatus gs'].
  simpl in *. rewrite H. simpl.
  eexists. split; [reflexivity|]. simpl.
  repeat split. rewrite length_app, L. reflexivity.
Qed.

(** ** Only the last entry is incomplete *)

Lemma onlyLastIncomplete_snoc (earlier : list slot) (p : slot) :
  onlyLastIncomplete (earlier ++ [p]) = forallb settled earlier.
Proof. unfold onlyLastIncomplete. now rewrite unsnoc_app. Qed.

Lemma refsOk_snoc (earlier : list slot) (p : slot) :
  refsOk (earlier ++ [p]) =
  refsOk earlier && (refOk (file1 p) && refOk (file2 p)).
Proof. unfold refsOk. rewrite forallb_app. simpl. now rewrite andb_true_r. Qed.

Lemma wellShaped_snoc (earlier : list slot) (p : slot) :
  wellShaped (earlier ++ [p]) = true <->
  refsOk earlier = true /\ refOk (file1 p) = true /\ refOk (file2 p) = true /\
  forallb settled earlier = true.
Proof.
  unfold wellShaped. rewrite refsOk_snoc, onlyLastIncomplete_snoc.
  rewrite !andb_true_iff. tauto.
Qed.

Lemma generateFilename_truthy (playerIdx : nat) (k : string) (io : readings)
  (mime : string) :
  truthyStr (generateFilename playerIdx k io mime) = true.
Proof. reflexivity. Qed.

Lemma wellShaped_status (gameState : GameState) (now : Z) :
  wellShaped gameState = true ->
  wellShaped (snd (getCurrentPlayerStatus gameState now)) = true.
Proof.
  intros W.
  destruct (status_effect gameState now)
    as [->|(earlier & p & t & -> & _ & _ & _ & _ & _ & _ & ->)]; [exact W|].
  apply wellShaped_snoc in W. apply wellShaped_snoc. simpl. tauto.
Qed.

(** Once the status allows a first recording, no entry is in the way. *)
Lemma settled_when_first_allowed (gameState : GameState) (now : Z) :
  wellShaped gameState = true ->
  PlayerStatus.canRecordFirst (fst (getCurrentPlayerStatus gameState now)) = true ->
  forallb settled (snd (getCurrentPlayerStatus gameState now)) = true.
Proof.
  intros W H.
  destruct (status_cases gameState now)
    as [[-> E]|(earlier & p & -> & [(H1 & H2 & E)|[(H1 & H2 & E)|[(H1 & H2 & E)|(H1 & E)]]])];
    rewrite E in *; simpl in *; try discriminate; try reflexivity;
    apply wellShaped_snoc in W; destruct W as (_ & R1 & R2 & S);
    rewrite forallb_app, S; simpl; unfold settled; simpl.
  - destruct (file1 p), (file2 p); try discriminate; reflexivity.
  - reflexivity.
  - destruct (file1 p) as [f|]; [|reflexivity].
    simpl in *. congruence.
Qed.

Lemma wellShaped_push (gameState : GameState) (now : Z) (entry : slot) :
  wellShaped gameState = true ->
  PlayerStatus.canRecordFirst (fst (getCurrentPlayerStatus gameState now)) = true ->
  refOk (file1 entry) = true -> refOk (file2 entry) = true ->
  wellShaped (snd (getCurrentPlayerStatus gameState now) ++ [entry]) = true.
Proof.
  intros W H R1 R2. apply wellShaped_snoc.
  pose proof (wellShaped_status gameState now W) as W'.
  unfold wellShaped in W'. apply andb_true_iff in W'.
  repeat split; try assumption; try tauto.
  now apply settled_when_first_allowed.
Qed.

Lemma wellShaped_complete (gameState earlier : list slot) (p : slot)
  (filename : string) (playerName : option string) :
  wellShaped gameState = true ->
  unsnoc gameState = Some (earlier, p) ->
  truthyStr filename = true ->
  wellShaped (earlier ++ [completeLast p filename playerName]) = true.
Proof.
  intros W U T. apply unsnoc_Some in U. subst gameState.
  apply wellShaped_snoc in W. apply wellShaped_snoc.
  destruct W as (R & R1 & R2 & S).
  unfold completeLast.
  destruct playerName as [given|]; [destruct (truthyStr given)|]; simpl; auto.
Qed.

Lemma newPlayer_may_record (gameState : GameState) (now : Z) :
  PlayerStatus.isNewPlayer (fst (getCurrentPlayerStatus gameState now)) = true ->
  PlayerStatus.canRecordFirst (fst (getCurrentPlayerStatus gameState now)) = true.
Proof.
  destruct (status_cases gameState now)
    as [[_ ->]|(earlier & p & _ & [(_ & _ & ->)|[(_ & _ & ->)|[(_ & _ & ->)|(_ & ->)]]])];
    simpl; auto.
Qed.

Lemma wellShaped_shared_step (gs gs' : GameState) :
  wellShaped gs = true -> sharedStep gs gs' -> wellShaped gs' = true.
Proof.
  intros W St. destruct St as [gs now|gs req io|gs req io|gs].
  - now apply wellShaped_status.
  - unfold Shared.recordFirstAudio.
    destruct (truthy (audioData req)); simpl; [|exact W].
    pose proof (wellShaped_status gs (statusNow io) W) as W'.
    pose proof (wellShaped_push gs (statusNow io)) as P.
    destruct (getCurrentPlayerStatus gs (statusNow io)) as [playerStatus gs1].
    simpl in *.
    destruct (PlayerStatus.canRecordFirst playerStatus); simpl; [|exact W'].
    destruct (mimeType req) as [mime|]; [|exact W'].
    destruct (diskOk io); simpl; [|exact W'].
    apply P; auto.
  - unfold Shared.recordSecondAudio.
    destruct (truthy (audioData req)); simpl; [|exact W].
    pose proof (wellShaped_status gs (statusNow io) W) as W'.
    destruct (getCurrentPlayerStatus gs (statusNow io)) as [playerStatus gs1].
    simpl in *.
    destruct (PlayerStatus.canRecordSecond playerStatus); simpl; [|exact W'].
    destruct (mimeType req) as [mime|]; [|exact W'].
    destruct (diskOk io); simpl; [|exact W'].
    destruct (unsnoc gs1) as [[earlier p]|] eqn:U; [|exact W'].
    simpl. eapply wellShaped_complete; eauto.
  - reflexivity.
Qed.

Lemma wellShaped_session_step (gs gs' : GameState) :
  wellShaped gs = true -> sessionStep gs gs' -> wellShaped gs' = true.
Proof.
  intros W St. destruct St as [gs now|gs req io|gs req io].
  - now apply wellShaped_status.
  - unfold Session.recordFirstAudio.
    destruct (truthy (audioData req)); simpl; [|exact W].
    pose proof (wellShaped_status gs (statusNow io) W) as W'.
    pose proof (wellShaped_push gs (statusNow io)) as P.
    pose proof (newPlayer_may_record gs (statusNow io)) as N.
    destruct (getCurrentPlayerStatus gs (statusNow io)) as [playerStatus gs1].
    simpl in *.
    destruct (PlayerStatus.isNewPlayer playerStatus); simpl; [|exact W'].
    destruct (mimeType req) as [mime|]; [|exact W'].
    destruct (diskOk io); simpl; [|exact W'].
    apply P; auto.
  - unfold Session.recordSecondAudio.
    destruct (truthy (audioData req)); simpl; [|exact W].
    pose proof (wellShaped_status gs (statusNow io) W) as W'.
    destruct (getCurrentPlayerStatus gs (statusNow io)) as [playerStatus gs1].
    simpl in *.
    destruct (PlayerStatus.needsSecondFile playerStatus); simpl; [|exact W'].
    destruct (mimeType req) as [mime|]; [|exact W'].
    destruct (diskOk io); simpl; [|exact W'].
    destruct (unsnoc gs1) as [[earlier p]|] eqn:U; [|exact W'].
    simpl. eapply wellShaped_complete; eauto.
Qed.

Lemma sharedReachable_wellShaped (gs : GameState) :
  sharedReachable gs -> wellShaped gs = true.
Proof.
  induction 1 as [|gs gs' _ IH St]; [reflexivity|].
  eapply wellShaped_shared_step; eauto.
Qed.

Lemma sessionReachable_wellShaped (gs : GameState) :
  sessionReachable gs -> wellShaped gs = true.
Proof.
  induction 1 as [|gs gs' _ IH St]; [reflexivity|].
  eapply wellShaped_session_step; eauto.
Qed.

(** What [onlyLastIncomplete] says, entry by entry. *)
Lemma onlyLastIncomplete_spec (gameState : GameState) :
  onlyLastIncomplete gameState = true <->
  forall earlier lastPlayer s,
    gameState = earlier ++ [lastPlayer] -> In s earlier ->
    (file1 s <> None /\ file2 s <> None) \/ file1 s = None.
Proof.
  assert (forall s, settled s = true <->
                    (file1 s <> None /\ file2 s <> None) \/ file1 s = None) as Hs.
  { intros s. unfold settled. destruct (file1 s), (file2 s); split; intros H;
      try reflexivity; try discriminate; try (left; split; discriminate);
      try (right; reflexivity).
    destruct H as [[_ N]|N]; congruence. }
  destruct (snoc_cases gameState) as [->|(earlier & p & ->)].
  - split; [|reflexivity].
    intros _ earlier lastPlayer s E. destruct earlier; discriminate.
  - rewrite onlyLastIncomplete_snoc, forallb_forall. split.
    + intros H earlier' lastPlayer s E I.
      apply app_inj_tail in E. destruct E as [-> _]. apply Hs, H, I.
    + intros H s I. apply Hs. eapply H; eauto.
Qed.

(** C5: in every game reachable from the empty one by status polls, first
    and second recordings and resets, every entry before the last has
    both files or has no first file; and each of the four operations
    leads from such a game to one with the same property. *)
Theorem reachable_only_last_incomplete (gameState : GameState) :
  sharedReachable gameState ->
  (forall earlier lastPlayer s,
     gameState = earlier ++ [lastPlayer] -> In s earlier ->
     (file1 s <> None /\ file2 s <> None) \/ file1 s = None) /\
  (forall gameState',
     sharedStep gameState gameState' ->
     forall earlier lastPlayer s,
       gameState' = earlier ++ [lastPlayer] -> In s earlier ->
       (file1 s <> None /\ file2 s <> None) \/ file1 s = None).
Proof.
  intros R. pose proof (sharedReachable_wellShaped gameState R) as W. split.
  - apply onlyLastIncomplete_spec.
    unfold wellShaped in W. now apply andb_true_iff in W.
  - intros gameState' St. apply onlyLastIncomplete_spec.
    pose proof (wellShaped_shared_step _ _ W St) as W'.
    unfold wellShaped in W'. now apply andb_true_iff in W'.
Qed.

(** The same in the session server. *)
Lemma session_reachable_only_last_incomplete (gameState : GameState) :
  sessionReachable gameState ->
  forall earlier lastPlayer s,
    gameState = earlier ++ [lastPlayer] -> In s earlier ->
    (file1 s <> None /\ file2 s <> None) \/ file1 s = None.
Proof.
  intros R. apply onlyLastIncomplete_spec.
  pose proof (sessionReachable_wellShaped gameState R) as W.
  unfold wellShaped in W. now apply andb_true_iff in W.
Qed.

Lemma reachable_only_last_incomplete_witness :
  let alice := Body (Some "UklGRg==") (Some "audio/wav") (Some "Alice") in
  let bob := Body (Some "GkXfow==") (Some "audio/webm") None in
  let g1 := snd (Shared.recordFirstAudio alice (Readings 10 11 12 13 true) []) in
  let g2 := snd (Shared.recordSecondAudio alice (Readings 20 21 22 23 true) g1) in
  let g3 := snd (Shared.recordFirstAudio bob (Readings 30 31 32 33 true) g2) in
  List.length g3 = 2 /\
  sharedReachable g3 /\
  forall earlier lastPlayer s,
    g3 = earlier ++ [lastPlayer] -> In s earlier ->
    (file1 s <> None /\ file2 s <> None) \/ file1 s = None.
Proof.
  intros alice bob g1 g2 g3.
  assert (sharedReachable g3) as R.
  { apply shared_next with (gs := g2); [|exact (shared_first g2 bob _)].
    apply shared_next with (gs := g1); [|exact (shared_second g1 alice _)].
    apply shared_next with (gs := []); [|exact (shared_first [] alice _)].
    exact shared_start. }
  split; [reflexivity|]. split; [exact R|].
  exact (proj1 (reachable_only_last_incomplete g3 R)).
Defined.

(** ** Saving and loading the game *)

Lemma sapp_assoc (a b c : string) : ((a ++ b) ++ c = a ++ (b ++ c))%string.
Proof. induction a as [|x a IH]; simpl; [reflexivity|now rewrite IH]. Qed.

Lemma sapp_nil_r (a : string) : (a ++ "" = a)%string.
Proof. induction a as [|x a IH]; simpl; [reflexivity|now rewrite IH]. Qed.

Lemma sapp_length (a b : string) :
  String.length (a ++ b) = String.length a + String.length b.
Proof. induction a as [|x a IH]; simpl; [reflexivity|now rewrite IH]. Qed.

Lemma blank_app (a b : string) : blank (a ++ b) = blank a && blank b.
Proof.
  induction a as [|x a IH]; simpl; [reflexivity|].
  now rewrite IH, andb_assoc.
Qed.

Lemma skip_blank (w rest : string) :
  blank w = true -> skipWhitespace (w ++ rest) = skipWhitespace rest.
Proof.
  induction w as [|x w IH]; simpl; [reflexivity|].
  intros H. apply andb_true_iff in H. destruct H as [Hx Hw].
  rewrite Hx. now apply IH.
Qed.

(** Leading whitespace does not matter to [parseValue]. *)
Lemma parseValue_blank (fuel : nat) (w s : string) :
  blank w = true -> parseValue fuel (w ++ s) = parseValue fuel s.
Proof.
  intros H. destruct fuel as [|fuel]; [reflexivity|].
  simpl. now rewrite (skip_blank w s H).
Qed.

(** *** Strings *)

Lemma parseChars_escapeChar (c : ascii) (tail : string) :
  parseChars (escapeChar c ++ tail) = consChar c (parseChars tail).
Proof.
  destruct c as [[] [] [] [] [] [] [] []]; reflexivity.
Qed.

Lemma parseChars_escape (s rest : string) :
  parseChars (escape s ++ String dquote rest) = Some (s, rest).
Proof.
  induction s as [|c s IH]; [reflexivity|].
  simpl escape. rewrite sapp_assoc, parseChars_escapeChar, IH. reflexivity.
Qed.

(** *** Numbers *)

Lemma tailOk_ends_number (rest : string) :
  tailOk rest = true ->
  readDigits rest = (Decimal.Nil, rest) /\ continuesNumber rest = false.
Proof.
  destruct rest as [|c rest]; [split; reflexivity|].
  destruct c as [[] [] [] [] [] [] [] []]; simpl; intros H;
    try discriminate H; split; reflexivity.
Qed.

Lemma readDigits_string_of_uint (d : Decimal.uint) (rest : string) :
  readDigits rest = (Decimal.Nil, rest) ->
  readDigits (NilEmpty.string_of_uint d ++ rest) = (d, rest).
Proof.
  intros H. induction d; simpl; rewrite ?IHd; auto.
Qed.

Lemma unorm_to_uint (p : positive) :
  Decimal.unorm (Pos.to_uint p) = Pos.to_uint p.
Proof.
  rewrite <- (Unsigned.to_of (Pos.to_uint p)), Unsigned.of_to. reflexivity.
Qed.

Lemma uint_beq_refl (d : Decimal.uint) : Decimal.uint_beq d d = true.
Proof. now apply Decimal.internal_uint_dec_lb. Qed.

Lemma string_of_to_uint (p : positive) :
  NilZero.string_of_uint (Pos.to_uint p) = NilEmpty.string_of_uint (Pos.to_uint p).
Proof.
  pose proof (Unsigned.to_uint_nonnil p) as N.
  destruct (Pos.to_uint p); [contradiction|reflexivity..].
Qed.

Lemma readNatural_positive (p : positive) (rest : string) :
  tailOk rest = true ->
  readNatural (NilEmpty.string_of_uint (Pos.to_uint p) ++ rest) =
  Some (Pos.to_uint p, rest).
Proof.
  intros H. destruct (tailOk_ends_number rest H) as [Hd Hc].
  unfold readNatural. rewrite (readDigits_string_of_uint _ _ Hd).
  rewrite unorm_to_uint, uint_beq_refl, Hc. reflexivity.
Qed.

(** The first character of a positive number is a digit. *)
Lemma digit_head (p : positive) :
  exists c s, NilEmpty.string_of_uint (Pos.to_uint p) = String c s /\
              digitOf c <> None.
Proof.
  pose proof (Unsigned.to_uint_nonnil p) as N.
  destruct (Pos.to_uint p); [contradiction|..]; simpl;
    eexists; eexists; (split; [reflexivity|discriminate]).
Qed.

Lemma digit_not_minus (c : ascii) : digitOf c <> None -> Ascii.eqb c "-" = false.
Proof.
  destruct c as [[] [] [] [] [] [] [] []]; simpl; intros H;
    try reflexivity; contradiction.
Qed.

Lemma parseNumber_decimalZ (n : Z) (rest : string) :
  tailOk rest = true ->
  parseNumber (decimalZ n ++ rest) = Some (n, rest).
Proof.
  intros H. unfold decimalZ.
  rewrite <- (DecimalZ.of_to n) at 2.
  destruct n as [|p|p]; simpl Z.to_int; simpl NilZero.string_of_int.
  - destruct (tailOk_ends_number rest H) as [Hd Hc].
    simpl. unfold readNatural. simpl. rewrite Hd. simpl. rewrite Hc. reflexivity.
  - rewrite string_of_to_uint.
    destruct (digit_head p) as (c & s & E & D).
    pose proof (readNatural_positive p rest H) as R.
    rewrite E in *. simpl. rewrite (digit_not_minus c D).
    simpl in R. rewrite R. reflexivity.
  - rewrite string_of_to_uint. simpl.
    rewrite (readNatural_positive p rest H). reflexivity.
Qed.

(** *** Values *)

Lemma json_nested_ind (P : json -> Prop) :
  P JNull ->
  (forall n, P (JNumber n)) ->
  (forall s, P (JString s)) ->
  (forall items, Forall P items -> P (JArray items)) ->
  forall v, P v.
Proof.
  intros Hnull Hnum Hstr Harr.
  fix IH 1. intros [|n|s|items].
  - exact Hnull.
  - apply Hnum.
  - apply Hstr.
  - apply Harr. induction items as [|x items IHitems]; constructor.
    + apply IH.
    + exact IHitems.
Qed.

Lemma number_head (n : Z) :
  exists c s, decimalZ n = String c s /\ (digitOf c <> None \/ c = "-"%char).
Proof.
  unfold decimalZ. destruct n as [|p|p]; simpl.
  - eexists; eexists; split; [reflexivity|left; discriminate].
  - rewrite string_of_to_uint. destruct (digit_head p) as (c & s & E & D).
    exists c, s. auto.
  - eexists; eexists; split; [reflexivity|right; reflexivity].
Qed.

Lemma number_head_kind (c : ascii) :
  digitOf c <> None \/ c = "-"%char ->
  isWhitespace c = false /\ Ascii.eqb c dquote = false /\
  Ascii.eqb c "[" = false /\ Ascii.eqb c "n" = false /\ Ascii.eqb c "]" = false.
Proof.
  destruct c as [[] [] [] [] [] [] [] []]; simpl; intros [H|H];
    try contradiction; try discriminate; repeat split; reflexivity.
Qed.

(** The text of a value starts with a character that is neither
    whitespace nor a closing bracket. *)
Lemma stringify_head (indent : string) (v : json) :
  exists c s, stringify indent v = String c s /\
              isWhitespace c = false /\ Ascii.eqb c "]" = false.
Proof.
  destruct v as [|n|s|[|x items]]; simpl.
  - eexists; eexists; repeat split; reflexivity.
  - destruct (number_head n) as (c & s & E & K).
    destruct (number_head_kind c K) as (W & _ & _ & _ & B).
    exists c, s. auto.
  - eexists; eexists; repeat split; reflexivity.
  - eexists; eexists; repeat split; reflexivity.
  - eexists; eexists; repeat split; reflexivity.
Qed.

Lemma concat_cons2 (sep a b : string) (l : list string) :
  String.concat sep (a :: b :: l) = (a ++ sep ++ String.concat sep (b :: l))%string.
Proof. reflexivity. Qed.

(** Reading back the elements of an array, each of which reads back. *)
Lemma parseItems_written (indent stepback rest : string) (xs : list json) :
  blank indent = true -> blank stepback = true ->
  Forall (fun v => forall indent rest fuel,
            blank indent = true -> tailOk rest = true -> size v <= fuel ->
            parseValue fuel (stringify indent v ++ rest) = Some (v, rest)) xs ->
  forall x w fuel,
    (forall indent rest fuel,
        blank indent = true -> tailOk rest = true -> size x <= fuel ->
        parseValue fuel (stringify indent x ++ rest) = Some (x, rest)) ->
    blank w = true ->
    list_sum (map (fun v => S (size v)) (x :: xs)) <= fuel ->
    parseItems fuel
      (w ++ String.concat ("," ++ newline ++ indent) (map (stringify indent) (x :: xs))
         ++ newline ++ stepback ++ String "]" rest) =
    Some (x :: xs, rest).
Proof.
  intros Bi Bs HF. induction HF as [|y ys Py _ IH]; intros x w fuel Px Bw Hfuel.
  - simpl in Hfuel. destruct fuel as [|fuel]; [lia|].
    simpl map. simpl String.concat. simpl parseItems.
    rewrite parseValue_blank by exact Bw.
    rewrite Px; [|exact Bi|reflexivity|lia].
    simpl. rewrite skip_blank by exact Bs. reflexivity.
  - simpl in Hfuel. destruct fuel as [|fuel]; [lia|].
    change (map (stringify indent) (x :: y :: ys))
      with (stringify indent x :: stringify indent y :: map (stringify indent) ys).
    rewrite concat_cons2. rewrite !sapp_assoc.
    simpl parseItems.
    rewrite parseValue_blank by exact Bw.
    rewrite Px; [|exact Bi|reflexivity|lia].
    simpl.
    specialize (IH y (newline ++ indent)%string fuel Py).
    simpl in IH. rewrite ?sapp_assoc in IH. rewrite IH; [reflexivity|exact Bi|lia].
Qed.

Lemma concat_head (sep : string) (c : ascii) (s : string) (l : list string) :
  exists s', String.concat sep (String c s :: l) = String c s'.
Proof. destruct l; simpl; eexists; reflexivity. Qed.

(** An opening bracket followed by elements that read back. *)
Lemma parseValue_open (fuel : nat) (text : string) (c : ascii) (r : string)
  (items : list json) (rest : string) :
  skipWhitespace text = String c r -> Ascii.eqb c "]" = false ->
  parseItems fuel text = Some (items, rest) ->
  parseValue (S fuel) (String "[" text) = Some (JArray items, rest).
Proof.
  intros H B R. simpl. rewrite H, B, R. reflexivity.
Qed.

(** Reading back what [stringify] wrote. *)
Lemma parseValue_stringify (v : json) :
  forall indent rest fuel,
    blank indent = true -> tailOk rest = true -> size v <= fuel ->
    parseValue fuel (stringify indent v ++ rest) = Some (v, rest).
Proof.
  induction v as [|n|s|items IH] using json_nested_ind;
    intros indent rest fuel Bi Ht Hfuel;
    (destruct fuel as [|fuel]; [simpl in Hfuel; lia|]).
  - reflexivity.
  - destruct (number_head n) as (c & s & E & K).
    destruct (number_head_kind c K) as (W & Q & A & N & _).
    pose proof (parseNumber_decimalZ n rest Ht) as R.
    simpl stringify. rewrite E in *. simpl.
    rewrite W, Q, A, N. simpl in R. rewrite R. reflexivity.
  - simpl stringify. unfold quote. simpl.
    rewrite sapp_assoc. simpl. rewrite parseChars_escape. reflexivity.
  - destruct items as [|x items]; [reflexivity|].
    inversion IH as [|? ? Px Pitems]; subst.
    assert (blank (indent ++ "  ") = true) as Bi'
      by (rewrite blank_app, Bi; reflexivity).
    assert (blank (newline ++ indent ++ "  ") = true) as Bw
      by (simpl; exact Bi').
    simpl in Hfuel.
    pose proof (parseItems_written (indent ++ "  ") indent rest items Bi' Bi Pitems
                  x (newline ++ (indent ++ "  "))%string fuel Px Bw
                  ltac:(simpl; lia)) as R.
    destruct (stringify_head (indent ++ "  ") x) as (c & s & E & W & B).
    replace (stringify indent (JArray (x :: items)) ++ rest)%string
      with (String "["
              ((newline ++ indent ++ "  ") ++
               String.concat ("," ++ newline ++ indent ++ "  ")
                 (map (stringify (indent ++ "  ")) (x :: items)) ++
               newline ++ indent ++ String "]" rest))%string
      by (cbn [stringify]; rewrite !sapp_assoc; reflexivity).
    destruct (concat_head ("," ++ newline ++ indent ++ "  ") c s
                (map (stringify (indent ++ "  ")) items)) as (s' & Hc).
    apply (parseValue_open fuel _ c (s' ++ newline ++ indent ++ String "]" rest)%string);
      [|exact B|exact R].
    rewrite skip_blank by exact Bw.
    simpl map. rewrite E, Hc. simpl. rewrite W. reflexivity.
Qed.

Lemma sum_le_concat (sep indent : string) (xs : list json) :
  1 <= String.length sep ->
  Forall (fun v => forall indent, size v <= String.length (stringify indent v)) xs ->
  list_sum (map (fun v => S (size v)) xs) <=
  String.length (String.concat sep (map (stringify indent) xs)) + 1.
Proof.
  intros Hsep HF. induction HF as [|x xs Hx HF IH]; [simpl; lia|].
  specialize (Hx indent).
  destruct xs as [|y ys].
  - simpl. lia.
  - change (map (stringify indent) (x :: y :: ys))
      with (stringify indent x :: stringify indent y :: map (stringify indent) ys).
    rewrite concat_cons2, !sapp_length.
    change (map (fun v => S (size v)) (x :: y :: ys))
      with (S (size x) :: map (fun v => S (size v)) (y :: ys)).
    change (map (stringify indent) (y :: ys))
      with (stringify indent y :: map (stringify indent) ys) in IH.
    cbn [list_sum fold_right map] in IH |- *. lia.
Qed.

Lemma stringify_array (indent : string) (x : json) (items : list json) :
  stringify indent (JArray (x :: items)) =
  ("[" ++ newline ++ (indent ++ "  ")
       ++ String.concat ("," ++ newline ++ indent ++ "  ")
            (map (stringify (indent ++ "  ")) (x :: items))
       ++ newline ++ indent ++ "]")%string.
Proof. reflexivity. Qed.

(** The fuel [JSON_parse] gives is enough for any text [stringify] wrote. *)
Lemma size_le_length (v : json) :
  forall indent, size v <= String.length (stringify indent v).
Proof.
  induction v as [|n|s|items IH] using json_nested_ind; intros indent.
  - simpl. lia.
  - destruct (number_head n) as (c & s & E & _). simpl. rewrite E. simpl. lia.
  - simpl. lia.
  - destruct items as [|x items]; [simpl; lia|].
    assert (1 <= String.length ("," ++ newline ++ indent ++ "  ")) as Hsep
      by (simpl; apply le_n_S, Nat.le_0_l).
    pose proof (sum_le_concat ("," ++ newline ++ indent ++ "  ") (indent ++ "  ")
                  (x :: items) Hsep IH) as H.
    rewrite stringify_array.
    change (size (JArray (x :: items)))
      with (S (list_sum (map (fun v => S (size v)) (x :: items)))).
    remember (String.concat ("," ++ newline ++ indent ++ "  ")
                (map (stringify (indent ++ "  ")) (x :: items))) as written.
    remember (list_sum (map (fun v => S (size v)) (x :: items))) as total.
    rewrite !sapp_length. simpl String.length. lia.
Qed.

Lemma JSON_parse_stringify (v : json) :
  JSON_parse (JSON_stringify v) = Some v.
Proof.
  unfold JSON_parse, JSON_stringify.
  pose proof (parseValue_stringify v "" ""
                (S (String.length (stringify "" v))) eq_refl eq_refl
                (le_S _ _ (size_le_length v ""))) as H.
  rewrite sapp_nil_r in H. rewrite H. reflexivity.
Qed.

Lemma slotOfJson_slotToJson (p : slot) : slotOfJson (slotToJson p) = Some p.
Proof. destruct p as [[f1|] [f2|] n [t|]]; reflexivity. Qed.

Lemma ofJson_toJson (gameState : GameState) : ofJson (toJson gameState) = Some gameState.
Proof.
  unfold ofJson, toJson.
  induction gameState as [|p gameState IH]; [reflexivity|].
  cbn [map slotsOfJson]. rewrite slotOfJson_slotToJson, IH. reflexivity.
Qed.

(** C9: for every game, the text [saveGameState] writes reads back, with
    [JSON.parse], as the same game; so a load after a save that reached
    the disk restores the array that was saved. *)
Theorem save_load_roundtrip (gameState : GameState) :
  match JSON_parse (JSON_stringify (toJson gameState)) with
  | Some v => ofJson v
  | None => None
  end = Some gameState /\
  forall file sharedGameState,
    Shared.loadGameState (Shared.saveGameState gameState true file) sharedGameState =
    Some gameState.
Proof.
  assert (match JSON_parse (JSON_stringify (toJson gameState)) with
          | Some v => ofJson v
          | None => None
          end = Some gameState) as H
    by (rewrite JSON_parse_stringify; apply ofJson_toJson).
  split; [exact H|].
  intros file sharedGameState. exact H.
Qed.

(** A save that fails leaves the old file, which is what the next load
    reads. *)
Example failed_save_keeps_file :
  Shared.loadGameState
    (Shared.saveGameState [Slot (Some "a.wav") None "Alice" (Some 5%Z)] false
                          (Some "[]")) [] = Some [].
Proof. reflexivity. Qed.

Example saved_text :
  Shared.saveGameState [Slot (Some "a.wav") None "Alice" (Some 5%Z)] true None =
  Some (String.concat newline
          ["["; "  ["; "    " ++ quote "a.wav" ++ ","; "    null,";
           "    " ++ quote "Alice" ++ ","; "    5"; "  ]"; "]"])%string.
Proof. reflexivity. Qed.

(** * Further properties of the code *)

(** ** What a status call does to the array *)

Lemma clearFirst_differs (p : slot) : truthy (file1 p) = true -> clearFirst p <> p.
Proof.
  intros H E. apply (f_equal file1) in E. simpl in E.
  rewrite <- E in H. discriminate.
Qed.

(** X1: a status call changes the array exactly when the last entry has
    a first file, no second file and a timestamp other than 0 that is
    more than 120000 ms old; it then clears that entry's first file and
    timestamp and reports a new player at the same player number. *)
Theorem status_changes_iff_timed_out (gameState : GameState) (now : Z) :
  (snd (getCurrentPlayerStatus gameState now) <> gameState <->
   exists earlier p t,
     gameState = earlier ++ [p] /\
     truthy (file1 p) = true /\ truthy (file2 p) = false /\
     startTime p = Some t /\ t <> 0%Z /\ (now - t > 120000)%Z) /\
  (forall earlier p t,
     gameState = earlier ++ [p] ->
     truthy (file1 p) = true -> truthy (file2 p) = false ->
     startTime p = Some t -> t <> 0%Z -> (now - t > 120000)%Z ->
     getCurrentPlayerStatus gameState now =
     (PlayerStatus.Make true (List.length gameState) false true false false,
      earlier ++ [Slot None (file2 p) (name p) None])).
Proof.
  assert (forall earlier p t,
     gameState = earlier ++ [p] ->
     truthy (file1 p) = true -> truthy (file2 p) = false ->
     startTime p = Some t -> t <> 0%Z -> (now - t > 120000)%Z ->
     getCurrentPlayerStatus gameState now =
     (PlayerStatus.Make true (List.length gameState) false true false false,
      earlier ++ [Slot None (file2 p) (name p) None])) as Hyes.
  { intros earlier p t -> H1 H2 Ht Hz Hgt.
    apply (status_timeout earlier p now t); auto. }
  split; [|exact Hyes]. split.
  - intros N.
    destruct (status_effect gameState now)
      as [E|(earlier & p & t & -> & H1 & H2 & Ht & Hz & G & _ & _)];
      [contradiction|].
    exists earlier, p, t. repeat split; assumption.
  - intros (earlier & p & t & E & H1 & H2 & Ht & Hz & G).
    rewrite (Hyes earlier p t E H1 H2 Ht Hz G). simpl. subst gameState.
    intros C. apply app_inj_tail in C. destruct C as [_ C].
    now apply (clearFirst_differs p H1).
Qed.

(** X2: a status call never adds or removes an entry, never touches an
    entry before the last, and never changes a name or a second file. *)
Theorem status_touches_last_only (gameState : GameState) (now : Z) :
  let after := snd (getCurrentPlayerStatus gameState now) in
  List.length after = List.length gameState /\
  removelast after = removelast gameState /\
  map name after = map name gameState /\
  map file2 after = map file2 gameState.
Proof.
  simpl.
  destruct (status_effect gameState now)
    as [->|(earlier & p & t & -> & _ & _ & _ & _ & _ & _ & ->)];
    [repeat split; reflexivity|].
  rewrite !length_app, !removelast_last, !map_app. repeat split; reflexivity.
Qed.

(** X3: polling again, at the same or an earlier clock reading, changes
    nothing more: the reclaim happens once. *)
Theorem repeated_poll_is_stable (gameState : GameState) (now now' : Z) :
  (now' <= now)%Z ->
  snd (getCurrentPlayerStatus (snd (getCurrentPlayerStatus gameState now)) now') =
  snd (getCurrentPlayerStatus gameState now).
Proof.
  intros Hle.
  destruct (status_effect gameState now)
    as [E|(earlier & p & t & -> & H1 & H2 & Ht & Hz & G & _ & E)].
  - rewrite E.
    destruct (status_effect gameState now')
      as [E'|(earlier & p & t & -> & H1 & H2 & Ht & Hz & G & _ & _)];
      [exact E'|].
    exfalso.
    rewrite (status_timeout earlier p now t H1 H2 Ht Hz) in E
      by (unfold twoMinutes; lia).
    simpl in E. apply app_inj_tail in E. destruct E as [_ E].
    now apply (clearFirst_differs p H1).
  - rewrite E. now rewrite status_nofiles.
Qed.

Lemma repeated_poll_is_stable_witness :
  snd (getCurrentPlayerStatus
         (snd (getCurrentPlayerStatus
                 [Slot (Some "a.wav") None "Alice" (Some 1%Z)] 200000)) 150000) =
  [Slot None None "Alice" None].
Proof.
  exact (repeated_poll_is_stable
           [Slot (Some "a.wav") None "Alice" (Some 1%Z)] 200000 150000
           ltac:(lia)).
Defined.

(** X4: the fields of a status agree with each other and with the array:
    the player number is between 1 and the number of entries plus one, a
    new player may always record a first file, and a second file is only
    asked of the last entry of a non-empty array. *)
Theorem status_fields_agree (gameState : GameState) (now : Z) :
  let playerStatus := fst (getCurrentPlayerStatus gameState now) in
  1 <= PlayerStatus.playerNumber playerStatus <= List.length gameState + 1 /\
  (PlayerStatus.isNewPlayer playerStatus = true ->
   PlayerStatus.canRecordFirst playerStatus = true) /\
  (PlayerStatus.canRecordSecond playerStatus = true ->
   PlayerStatus.isNewPlayer playerStatus = false /\
   PlayerStatus.playerNumber playerStatus = List.length gameState /\
   gameState <> []) /\
  (PlayerStatus.playerNumber playerStatus = List.length gameState + 1 ->
   PlayerStatus.isNewPlayer playerStatus = true) /\
  PlayerStatus.isRecording playerStatus = false.
Proof.
  destruct (status_cases gameState now)
    as [[-> ->]|(earlier & p & -> & [(_ & _ & ->)|[(_ & _ & ->)|[(_ & _ & ->)|(_ & ->)]]])];
    simpl; rewrite ?length_app; simpl;
    repeat split; intros; try reflexivity; try discriminate; try lia;
    try (destruct earlier; discriminate).
Qed.

(** ** What the visible files never show *)

Lemma playerName_truthy (gameState : GameState) (i : nat) (player : slot) :
  truthyStr (PlayerFiles.playerName (playerFiles gameState i player)) = true.
Proof.
  unfold playerFiles; simpl.
  destruct (truthyStr (name player)) eqn:E; [exact E|reflexivity].
Qed.

Lemma visible_entry_of (gameState : GameState) (i : nat) (e : PlayerFiles.t) :
  nth_error (getVisibleAudioFiles gameState) i = Some e ->
  exists player, nth_error gameState i = Some player /\
                 e = playerFiles gameState i player.
Proof.
  intros H.
  assert (i < List.length gameState) as L.
  { rewrite <- visible_length. apply nth_error_Some. congruence. }
  destruct (nth_error gameState i) as [player|] eqn:E.
  - exists player. split; [reflexivity|].
    rewrite (visible_nth gameState i player E) in H. congruence.
  - apply nth_error_None in E. lia.
Qed.

(** X5: the visible list has one entry per player, numbered from 1 in
    array order, and no entry has an empty name: a player without a name
    is shown as "Player" and the number. *)
Theorem visible_list_shape (gameState : GameState) :
  List.length (getVisibleAudioFiles gameState) = List.length gameState /\
  forall i e,
    nth_error (getVisibleAudioFiles gameState) i = Some e ->
    PlayerFiles.playerNumber e = i + 1 /\
    truthyStr (PlayerFiles.playerName e) = true /\
    exists player,
      nth_error gameState i = Some player /\
      (name player <> EmptyString -> PlayerFiles.playerName e = name player) /\
      (name player = EmptyString ->
       PlayerFiles.playerName e = ("Player " ++ decimal (i + 1))%string).
Proof.
  split; [apply visible_length|].
  intros i e H. destruct (visible_entry_of gameState i e H) as (player & Hp & ->).
  split; [reflexivity|]. split; [apply playerName_truthy|].
  exists player. split; [exact Hp|].
  unfold playerFiles; simpl. destruct (name player); simpl; split; intros N;
    try reflexivity; try discriminate; contradiction.
Qed.

(** X6: the second file of the last player is never visible, whatever
    the array holds. *)
Theorem last_second_file_hidden (earlier : list slot) (lastPlayer : slot) :
  exists e,
    nth_error (getVisibleAudioFiles (earlier ++ [lastPlayer])) (List.length earlier)
      = Some e /\
    PlayerFiles.secondFile e = None.
Proof.
  exists (playerFiles (earlier ++ [lastPlayer]) (List.length earlier) lastPlayer).
  split.
  - apply visible_nth. rewrite nth_error_app2 by lia.
    now rewrite Nat.sub_diag.
  - unfold playerFiles; simpl.
    destruct (truthy (file2 lastPlayer)); [|reflexivity].
    rewrite length_app. simpl.
    replace (List.length earlier + 1 <? List.length earlier + 1)%nat with false
      by (symmetry; apply Nat.ltb_irrefl).
    reflexivity.
Qed.

(** Entries before the previously last one look at nothing a push adds. *)
Lemma playerFiles_push (gameState : GameState) (entry player : slot) (i : nat) :
  i + 1 < List.length gameState ->
  playerFiles (gameState ++ [entry]) i player = playerFiles gameState i player.
Proof.
  intros L. unfold playerFiles.
  rewrite length_app. simpl.
  rewrite nth_error_app1 by exact L.
  assert ((i + 1 <? List.length gameState + 1)%nat = true) as A
    by (apply Nat.ltb_lt; lia).
  assert ((i + 1 <? List.length gameState)%nat = true) as B
    by (apply Nat.ltb_lt; lia).
  rewrite A, B. reflexivity.
Qed.

(** X7: pushing an entry changes no visible entry before the previously
    last one: what was revealed or hidden stays so. *)
Theorem push_keeps_earlier_visible (gameState : GameState) (entry : slot) (i : nat) :
  i + 1 < List.length gameState ->
  nth_error (getVisibleAudioFiles (gameState ++ [entry])) i =
  nth_error (getVisibleAudioFiles gameState) i.
Proof.
  intros L.
  destruct (nth_error gameState i) as [player|] eqn:E.
  - rewrite (visible_nth gameState i player E).
    rewrite (visible_nth (gameState ++ [entry]) i player)
      by (rewrite nth_error_app1 by lia; exact E).
    now rewrite playerFiles_push.
  - apply nth_error_None in E. lia.
Qed.

Lemma push_keeps_earlier_visible_witness :
  nth_error (getVisibleAudioFiles
               ([Slot (Some "a.wav") (Some "b.wav") "Alice" None;
                 Slot (Some "c.wav") (Some "d.wav") "Bob" None]
                ++ [Slot (Some "e.wav") None "Carol" (Some 9%Z)])) 0 =
  Some (PlayerFiles.Make 1 "Alice" (Some "a.wav") (Some "b.wav")).
Proof.
  rewrite (push_keeps_earlier_visible
             [Slot (Some "a.wav") (Some "b.wav") "Alice" None;
              Slot (Some "c.wav") (Some "d.wav") "Bob" None]
             (Slot (Some "e.wav") None "Carol" (Some 9%Z)) 0 ltac:(simpl; lia)).
  reflexivity.
Defined.

(** X8: an accepted first recording reveals the second file of the
    player before: once the new entry is pushed, the entry that was last
    shows its second file, if it has one. *)
Theorem first_recording_reveals_previous (gameState earlier : GameState)
  (p : slot) (filename : string) (playerName : option string) (now stamp : Z) :
  PlayerStatus.canRecordFirst (fst (getCurrentPlayerStatus gameState now)) = true ->
  truthyStr filename = true ->
  snd (getCurrentPlayerStatus gameState now) = earlier ++ [p] ->
  truthy (file2 p) = true ->
  exists e,
    nth_error (getVisibleAudioFiles
                 (snd (Shared.recordFirst gameState filename playerName now stamp)))
              (List.length earlier) = Some e /\
    PlayerFiles.secondFile e = file2 p /\
    PlayerFiles.secondFile e <> None.
Proof.
  intros Hc Hf Hs H2.
  unfold Shared.recordFirst.
  destruct (getCurrentPlayerStatus gameState now) as [playerStatus gs'].
  simpl in *. rewrite Hc. simpl. subst gs'.
  set (entry := Slot (Some filename) None _ (Some stamp)).
  exists (playerFiles ((earlier ++ [p]) ++ [entry]) (List.length earlier) p).
  split.
  - apply visible_nth. rewrite <- app_assoc.
    rewrite nth_error_app2 by lia. now rewrite Nat.sub_diag.
  - unfold playerFiles; simpl. rewrite H2.
    rewrite <- app_assoc. simpl.
    rewrite nth_error_app2 by lia.
    replace (List.length earlier + 1 - List.length earlier) with 1 by lia.
    simpl. rewrite Hf.
    rewrite length_app. simpl.
    assert ((List.length earlier + 1 <? List.length earlier + 2)%nat = true) as A
      by (apply Nat.ltb_lt; lia).
    rewrite A. simpl. split; [reflexivity|now apply truthy_not_None].
Qed.

Lemma first_recording_reveals_previous_witness :
  exists e,
    nth_error (getVisibleAudioFiles
                 (snd (Shared.recordFirst
                         [Slot (Some "a.wav") (Some "b.wav") "Alice" None]
                         "c.wav" (Some "Bob") 5 5))) 0 = Some e /\
    PlayerFiles.secondFile e = Some "b.wav".
Proof.
  destruct (first_recording_reveals_previous
              [Slot (Some "a.wav") (Some "b.wav") "Alice" None] []
              (Slot (Some "a.wav") (Some "b.wav") "Alice" None)
              "c.wav" (Some "Bob") 5 5 eq_refl eq_refl eq_refl eq_refl)
    as (e & He & Hs & _).
  exists e. split; [exact He|exact Hs].
Defined.

(** ** How the recordings follow each other *)

(** X9: an accepted second recording writes into the last entry only:
    the entry keeps its first file, gets [filename] as second file and
    loses its timestamp; its name is replaced by a non-empty name given
    with the request and kept otherwise.  No entry is added, and the
    entries before are untouched. *)
Theorem second_recording_completes_last (gameState : GameState)
  (filename : string) (playerName : option string) (now : Z) :
  PlayerStatus.canRecordSecond (fst (getCurrentPlayerStatus gameState now)) = true ->
  exists earlier p,
    gameState = earlier ++ [p] /\
    Shared.recordSecond gameState filename playerName now =
      (Success filename,
       earlier ++ [Slot (file1 p) (Some filename) (orElse playerName (name p)) None]) /\
    Session.recordSecond gameState filename playerName now =
      (Success filename,
       earlier ++ [Slot (file1 p) (Some filename) (orElse playerName (name p)) None]).
Proof.
  intros H.
  destruct (status_cases gameState now)
    as [[_ E]|(earlier & p & -> & [(_ & _ & E)|[(_ & _ & E)|[(_ & _ & E)|(_ & E)]]])];
    rewrite E in H; simpl in H; try discriminate.
  exists earlier, p. split; [reflexivity|].
  unfold Shared.recordSecond, Session.recordSecond. rewrite E. simpl.
  rewrite unsnoc_app. unfold completeLast, orElse.
  destruct playerName as [given|]; [destruct (truthyStr given)|]; simpl;
    split; reflexivity.
Qed.

Lemma second_recording_completes_last_witness :
  exists earlier p,
    [Slot (Some "a.wav") None "Alice" (Some 5%Z)] = earlier ++ [p] /\
    Shared.recordSecond [Slot (Some "a.wav") None "Alice" (Some 5%Z)]
                        "b.wav" (Some "Alicia") 9 =
      (Success "b.wav",
       earlier ++ [Slot (file1 p) (Some "b.wav") (orElse (Some "Alicia") (name p)) None]).
Proof.
  destruct (second_recording_completes_last
              [Slot (Some "a.wav") None "Alice" (Some 5%Z)]
              "b.wav" (Some "Alicia") 9 eq_refl)
    as (earlier & p & E & H & _).
  exists earlier, p. split; [exact E|exact H].
Defined.

(** X10: after an accepted second recording under a non-empty file
    name, every later status, whatever the clock, lets a new player with
    the next number record a first file and leaves the array alone, and a
    further second recording is refused without any change. *)
Theorem after_second_recording (gameState : GameState) (filename : string)
  (playerName : option string) (now : Z) :
  PlayerStatus.canRecordSecond (fst (getCurrentPlayerStatus gameState now)) = true ->
  truthyStr filename = true ->
  let completed := snd (Shared.recordSecond gameState filename playerName now) in
  forall later,
    getCurrentPlayerStatus completed later =
      (PlayerStatus.Make true (List.length gameState + 1) false true false false,
       completed) /\
    forall filename' playerName',
      Shared.recordSecond completed filename' playerName' later =
      (BadRequest "Not ready to record second audio", completed).
Proof.
  intros H Hf.
  destruct (status_cases gameState now)
    as [[_ E]|(earlier & p & -> & [(_ & _ & E)|[(_ & _ & E)|[(H1 & _ & E)|(_ & E)]]])];
    rewrite E in H; simpl in H; try discriminate.
  unfold Shared.recordSecond at 1. rewrite E. simpl. rewrite unsnoc_app. simpl.
  intros later.
  assert (getCurrentPlayerStatus (earlier ++ [completeLast p filename playerName]) later =
          (PlayerStatus.Make true (List.length (earlier ++ [p]) + 1)
                             false true false false,
           earlier ++ [completeLast p filename playerName])) as S.
  { rewrite status_both.
    - rewrite !length_app. reflexivity.
    - unfold completeLast.
      destruct playerName as [given|]; [destruct (truthyStr given)|]; exact H1.
    - unfold completeLast.
      destruct playerName as [given|]; [destruct (truthyStr given)|]; exact Hf. }
  split; [exact S|].
  intros filename' playerName'. unfold Shared.recordSecond. rewrite S. reflexivity.
Qed.

Lemma after_second_recording_witness :
  getCurrentPlayerStatus
    (snd (Shared.recordSecond [Slot (Some "a.wav") None "Alice" (Some 5%Z)]
                              "b.wav" None 9)) 1000000 =
  (PlayerStatus.Make true 2 false true false false,
   [Slot (Some "a.wav") (Some "b.wav") "Alice" None]).
Proof.
  exact (proj1 (after_second_recording
                  [Slot (Some "a.wav") None "Alice" (Some 5%Z)]
                  "b.wav" None 9 eq_refl eq_refl 1000000)).
Defined.

(** X11: after an accepted first recording under a non-empty file name,
    and until more than 120000 ms have passed since the timestamp pushed,
    the status asks the new last player for the second file, and another
    first recording is refused without any change. *)
Theorem after_first_recording (gameState : GameState) (filename : string)
  (playerName : option string) (now stamp later : Z) :
  PlayerStatus.canRecordFirst (fst (getCurrentPlayerStatus gameState now)) = true ->
  truthyStr filename = true ->
  (later - stamp <= 120000)%Z ->
  let started := snd (Shared.recordFirst gameState filename playerName now stamp) in
  getCurrentPlayerStatus started later =
    (PlayerStatus.Make false (List.length gameState + 1) true false true false,
     started) /\
  forall filename' playerName' stamp',
    Shared.recordFirst started filename' playerName' later stamp' =
    (BadRequest "Not ready to record first audio", started).
Proof.
  intros H Hf Hle.
  pose proof (status_length gameState now) as L.
  unfold Shared.recordFirst at 1 2.
  destruct (getCurrentPlayerStatus gameState now) as [playerStatus gs'].
  simpl in *. rewrite H. simpl.
  set (entry := Slot (Some filename) None _ (Some stamp)).
  assert (getCurrentPlayerStatus (gs' ++ [entry]) later =
          (PlayerStatus.Make false (List.length gameState + 1) true false true false,
           gs' ++ [entry])) as S.
  { rewrite status_waiting.
    - rewrite length_app, L. reflexivity.
    - exact Hf.
    - reflexivity.
    - intros t E. inversion E; subst t. right. unfold twoMinutes. lia. }
  split; [exact S|].
  intros filename' playerName' stamp'. unfold Shared.recordFirst.
  rewrite S. reflexivity.
Qed.

Lemma after_first_recording_witness :
  getCurrentPlayerStatus
    (snd (Shared.recordFirst [] "a.wav" (Some "Alice") 5 6)) 120006 =
  (PlayerStatus.Make false 1 true false true false,
   [Slot (Some "a.wav") None "Alice" (Some 6%Z)]).
Proof.
  exact (proj1 (after_first_recording [] "a.wav" (Some "Alice") 5 6 120006
                  eq_refl eq_refl ltac:(lia))).
Defined.

(** X13: [server.js] can get stuck: once the last entry has no first
    file, as after a poll that reclaimed it, every status still says a
    first file may be recorded, but no request changes the array any
    more: polls leave it, and both record routes refuse. *)
Theorem session_stuck_after_reclaim (earlier : list slot) (p : slot) :
  truthy (file1 p) = false ->
  let gameState := earlier ++ [p] in
  (forall now,
     PlayerStatus.canRecordFirst (fst (getCurrentPlayerStatus gameState now)) = true) /\
  (forall next, sessionStep gameState next -> next = gameState) /\
  (forall req io filename,
     fst (Session.recordFirstAudio req io gameState) <> Success filename /\
     fst (Session.recordSecondAudio req io gameState) <> Success filename).
Proof.
  intros H1. simpl.
  assert (forall now, getCurrentPlayerStatus (earlier ++ [p]) now =
            (PlayerStatus.Make false (List.length (earlier ++ [p]))
                               false true false false, earlier ++ [p])) as S
    by (intros now; now apply status_nofiles).
  assert (forall req io,
            exists msg, Session.recordFirstAudio req io (earlier ++ [p]) =
                        (BadRequest msg, earlier ++ [p])) as F.
  { intros req io. unfold Session.recordFirstAudio.
    destruct (truthy (audioData req)); simpl; [|eexists; reflexivity].
    rewrite S. simpl. eexists; reflexivity. }
  assert (forall req io,
            exists msg, Session.recordSecondAudio req io (earlier ++ [p]) =
                        (BadRequest msg, earlier ++ [p])) as G.
  { intros req io. unfold Session.recordSecondAudio.
    destruct (truthy (audioData req)); simpl; [|eexists; reflexivity].
    rewrite S. simpl. eexists; reflexivity. }
  split; [intros now; now rewrite S|]. split.
  - intros next St. inversion St; subst.
    + now rewrite S.
    + destruct (F req io) as (msg & ->). reflexivity.
    + destruct (G req io) as (msg & ->). reflexivity.
  - intros req io filename.
    destruct (F req io) as (m1 & ->). destruct (G req io) as (m2 & ->).
    split; discriminate.
Qed.

Lemma session_stuck_after_reclaim_witness :
  let reclaimed :=
    snd (getCurrentPlayerStatus
           (snd (Session.recordFirst [] "a.wav" (Some "Alice") 1 1)) 120002) in
  reclaimed = [Slot None None "Alice" None] /\
  forall next, sessionStep reclaimed next -> next = reclaimed.
Proof.
  split; [reflexivity|].
  exact (proj1 (proj2 (session_stuck_after_reclaim []
                         (Slot None None "Alice" None) eq_refl))).
Defined.

(** ** The record handlers, request by request *)

Lemma orElse_truthy (v : option string) (d : string) :
  truthyStr d = true -> truthyStr (orElse v d) = true.
Proof.
  intros H. unfold orElse. destruct v as [s|]; [|exact H].
  destruct (truthyStr s) eqn:E; [exact E|exact H].
Qed.

Lemma status_second_nonempty (gameState : GameState) (now : Z) :
  PlayerStatus.canRecordSecond (fst (getCurrentPlayerStatus gameState now)) = true ->
  exists earlier p,
    gameState = earlier ++ [p] /\ truthy (file1 p) = true /\
    truthy (file2 p) = false /\
    getCurrentPlayerStatus gameState now =
    (PlayerStatus.Make false (List.length gameState) true false true false, gameState).
Proof.
  intros H.
  destruct (status_cases gameState now)
    as [[_ E]|(earlier & p & -> & [(_ & _ & E)|[(_ & _ & E)|[(H1 & H2 & E)|(_ & E)]]])];
    rewrite E in H; simpl in H; try discriminate.
  exists earlier, p. auto.
Qed.

Lemma needsSecond_is_canRecordSecond (gameState : GameState) (now : Z) :
  PlayerStatus.needsSecondFile (fst (getCurrentPlayerStatus gameState now)) =
  PlayerStatus.canRecordSecond (fst (getCurrentPlayerStatus gameState now)).
Proof.
  destruct (status_cases gameState now)
    as [[_ ->]|(earlier & p & _ & [(_ & _ & ->)|[(_ & _ & ->)|[(_ & _ & ->)|(_ & ->)]]])];
    reflexivity.
Qed.

(** X14: the process-wide server answers a record request with success
    exactly when the audio data is there, the recomputed status allows
    that recording, the mime type is there and the clip reaches the disk;
    the file name answered is then the generated one, numbered with the
    index of the entry it goes to. *)
Theorem shared_success_iff (req : body) (io : readings) (gameState : GameState)
  (filename : string) :
  (fst (Shared.recordFirstAudio req io gameState) = Success filename <->
   truthy (audioData req) = true /\
   PlayerStatus.canRecordFirst
     (fst (getCurrentPlayerStatus gameState (statusNow io))) = true /\
   diskOk io = true /\
   exists mime, mimeType req = Some mime /\
                filename = generateFilename (List.length gameState) "1" io mime) /\
  (fst (Shared.recordSecondAudio req io gameState) = Success filename <->
   truthy (audioData req) = true /\
   PlayerStatus.canRecordSecond
     (fst (getCurrentPlayerStatus gameState (statusNow io))) = true /\
   diskOk io = true /\
   exists mime, mimeType req = Some mime /\
                filename = generateFilename (List.length gameState - 1) "2" io mime).
Proof.
  split.
  - unfold Shared.recordFirstAudio.
    pose proof (status_length gameState (statusNow io)) as L.
    destruct (truthy (audioData req)); simpl;
      [|split; [discriminate|intros (A & _); discriminate]].
    destruct (getCurrentPlayerStatus gameState (statusNow io)) as [playerStatus gs'].
    simpl in *. rewrite L.
    destruct (PlayerStatus.canRecordFirst playerStatus); simpl;
      [|split; [discriminate|intros (_ & A & _); discriminate]].
    destruct (mimeType req) as [mime|]; simpl;
      [|split; [discriminate|intros (_ & _ & _ & m & A & _); discriminate]].
    destruct (diskOk io); simpl;
      [|split; [discriminate|intros (_ & _ & A & _); discriminate]].
    split.
    + intros E. inversion E. repeat split. exists mime. auto.
    + intros (_ & _ & _ & m & E & ->). inversion E. reflexivity.
  - unfold Shared.recordSecondAudio.
    pose proof (status_length gameState (statusNow io)) as L.
    pose proof (status_second_nonempty gameState (statusNow io)) as N.
    destruct (truthy (audioData req)); simpl;
      [|split; [discriminate|intros (A & _); discriminate]].
    destruct (getCurrentPlayerStatus gameState (statusNow io)) as [playerStatus gs'].
    simpl in *. rewrite L.
    destruct (PlayerStatus.canRecordSecond playerStatus); simpl;
      [|split; [discriminate|intros (_ & A & _); discriminate]].
    destruct (N eq_refl) as (earlier & p & -> & _ & _ & E). inversion E; subst gs'.
    destruct (mimeType req) as [mime|]; simpl;
      [|split; [discriminate|intros (_ & _ & _ & m & A & _); discriminate]].
    destruct (diskOk io); simpl;
      [|split; [discriminate|intros (_ & _ & A & _); discriminate]].
    rewrite unsnoc_app. simpl. split.
    + intros E'. inversion E'. repeat split. exists mime. auto.
    + intros (_ & _ & _ & m & E' & ->). inversion E'. reflexivity.
Qed.

(** X15: [server.js] answers with success under the same conditions,
    except that its first recording needs [isNewPlayer] and its second
    [needsSecondFile]. *)
Theorem session_success_iff (req : body) (io : readings) (gameState : GameState)
  (filename : string) :
  (fst (Session.recordFirstAudio req io gameState) = Success filename <->
   truthy (audioData req) = true /\
   PlayerStatus.isNewPlayer
     (fst (getCurrentPlayerStatus gameState (statusNow io))) = true /\
   diskOk io = true /\
   exists mime, mimeType req = Some mime /\
                filename = generateFilename (List.length gameState) "1" io mime) /\
  (fst (Session.recordSecondAudio req io gameState) = Success filename <->
   truthy (audioData req) = true /\
   PlayerStatus.needsSecondFile
     (fst (getCurrentPlayerStatus gameState (statusNow io))) = true /\
   diskOk io = true /\
   exists mime, mimeType req = Some mime /\
                filename = generateFilename (List.length gameState - 1) "2" io mime).
Proof.
  split.
  - unfold Session.recordFirstAudio.
    pose proof (status_length gameState (statusNow io)) as L.
    destruct (truthy (audioData req)); simpl;
      [|split; [discriminate|intros (A & _); discriminate]].
    destruct (getCurrentPlayerStatus gameState (statusNow io)) as [playerStatus gs'].
    simpl in *. rewrite L.
    destruct (PlayerStatus.isNewPlayer playerStatus); simpl;
      [|split; [discriminate|intros (_ & A & _); discriminate]].
    destruct (mimeType req) as [mime|]; simpl;
      [|split; [discriminate|intros (_ & _ & _ & m & A & _); discriminate]].
    destruct (diskOk io); simpl;
      [|split; [discriminate|intros (_ & _ & A & _); discriminate]].
    split.
    + intros E. inversion E. repeat split. exists mime. auto.
    + intros (_ & _ & _ & m & E & ->). inversion E. reflexivity.
  - unfold Session.recordSecondAudio.
    pose proof (status_length gameState (statusNow io)) as L.
    pose proof (status_second_nonempty gameState (statusNow io)) as N.
    pose proof (needsSecond_is_canRecordSecond gameState (statusNow io)) as X.
    destruct (truthy (audioData req)); simpl;
      [|split; [discriminate|intros (A & _); discriminate]].
    destruct (getCurrentPlayerStatus gameState (statusNow io)) as [playerStatus gs'].
    simpl in *. rewrite L.
    destruct (PlayerStatus.needsSecondFile playerStatus); simpl;
      [|split; [discriminate|intros (_ & A & _); discriminate]].
    destruct (N (eq_sym X)) as (earlier & p & -> & _ & _ & E). inversion E; subst gs'.
    destruct (mimeType req) as [mime|]; simpl;
      [|split; [discriminate|intros (_ & _ & _ & m & A & _); discriminate]].
    destruct (diskOk io); simpl;
      [|split; [discriminate|intros (_ & _ & A & _); discriminate]].
    rewrite unsnoc_app. simpl. split.
    + intros E'. inversion E'. repeat split. exists mime. auto.
    + intros (_ & _ & _ & m & E' & ->). inversion E'. reflexivity.
Qed.
Lemma status_touches_array (gameState : GameState) (now : Z) :
  List.length (snd (getCurrentPlayerStatus gameState now)) = List.length gameState /\
  removelast (snd (getCurrentPlayerStatus gameState now)) = removelast gameState.
Proof.
  destruct (status_effect gameState now)
    as [->|(earlier & p & t & -> & _ & _ & _ & _ & _ & _ & ->)];
    [split; reflexivity|].
  rewrite !length_app, !removelast_last. split; reflexivity.
Qed.


(** X16: what a first-recording request does to the array.  Without
    audio data nothing at all happens, not even a reclaim.  A success
    pushes one entry at the end: it has the answered file name as first
    file, no second file, the pushed clock reading as timestamp and a
    non-empty name.  Any other answer adds nothing: the array is as it
    was, or as the status call left it. *)
Theorem first_request_outcome (req : body) (io : readings) (gameState : GameState) :
  (truthy (audioData req) = false ->
   Shared.recordFirstAudio req io gameState =
   (BadRequest "No audio data received", gameState)) /\
  (forall filename,
     fst (Shared.recordFirstAudio req io gameState) = Success filename ->
     exists entry,
       snd (Shared.recordFirstAudio req io gameState) =
         snd (getCurrentPlayerStatus gameState (statusNow io)) ++ [entry] /\
       file1 entry = Some filename /\ truthyStr filename = true /\
       file2 entry = None /\ startTime entry = Some (pushNow io) /\
       truthyStr (name entry) = true) /\
  ((forall filename,
      fst (Shared.recordFirstAudio req io gameState) <> Success filename) ->
   snd (Shared.recordFirstAudio req io gameState) = gameState \/
   snd (Shared.recordFirstAudio req io gameState) =
     snd (getCurrentPlayerStatus gameState (statusNow io))).
Proof.
  unfold Shared.recordFirstAudio.
  destruct (truthy (audioData req)); simpl.
  - split; [discriminate|].
    destruct (getCurrentPlayerStatus gameState (statusNow io)) as [playerStatus gs'].
    simpl.
    destruct (PlayerStatus.canRecordFirst playerStatus); simpl;
      [|split; [discriminate|auto]].
    destruct (mimeType req) as [mime|]; simpl; [|split; [discriminate|auto]].
    destruct (diskOk io); simpl; [|split; [discriminate|auto]].
    split.
    + intros filename E. inversion E; subst filename.
      eexists. split; [reflexivity|]. simpl. repeat split.
      apply orElse_truthy. reflexivity.
    + intros N. exfalso. eapply N. reflexivity.
  - split; [reflexivity|]. split; [discriminate|auto].
Qed.

(** X17: what a second-recording request does to the array.  It never
    adds or removes an entry and never touches an entry before the last.
    A success leaves the answered file name as second file of the last
    entry, which keeps its first file and has no timestamp any more. *)
Theorem second_request_outcome (req : body) (io : readings) (gameState : GameState) :
  List.length (snd (Shared.recordSecondAudio req io gameState)) =
    List.length gameState /\
  removelast (snd (Shared.recordSecondAudio req io gameState)) =
    removelast gameState /\
  (forall filename,
     fst (Shared.recordSecondAudio req io gameState) = Success filename ->
     exists earlier p completed,
       gameState = earlier ++ [p] /\
       snd (Shared.recordSecondAudio req io gameState) = earlier ++ [completed] /\
       file1 completed = file1 p /\ truthy (file1 p) = true /\
       file2 completed = Some filename /\ startTime completed = None).
Proof.
  pose proof (status_touches_array gameState (statusNow io)) as (L & R).
  pose proof (status_second_nonempty gameState (statusNow io)) as N.
  unfold Shared.recordSecondAudio.
  destruct (truthy (audioData req)); simpl;
    [|repeat split; discriminate].
  destruct (getCurrentPlayerStatus gameState (statusNow io)) as [playerStatus gs'].
  simpl in *.
  destruct (PlayerStatus.canRecordSecond playerStatus); simpl;
    [|repeat split; auto; discriminate].
  destruct (N eq_refl) as (earlier & p & -> & H1 & _ & E). inversion E; subst gs'.
  destruct (mimeType req) as [mime|]; simpl; [|repeat split; discriminate].
  destruct (diskOk io); simpl; [|repeat split; discriminate].
  rewrite unsnoc_app. simpl. rewrite !length_app, !removelast_last.
  repeat split.
  intros filename E'. inversion E'; subst filename.
  exists earlier, p. eexists. split; [reflexivity|]. split; [reflexivity|].
  unfold completeLast.
  destruct (playerName req) as [given|]; [destruct (truthyStr given)|]; simpl; auto.
Qed.

(** ** The entries and the file names of a reachable game *)

Lemma shared_step_change (gs gs' : GameState) : sharedStep gs gs' -> change gs gs'.
Proof.
  intros St. destruct St as [gs now|gs req io|gs req io|gs].
  - apply change_status.
  - unfold Shared.recordFirstAudio.
    destruct (truthy (audioData req)); simpl; [|apply change_none].
    pose proof (change_status gs (statusNow io)) as C.
    pose proof (change_push gs (statusNow io) io) as P.
    pose proof (status_length gs (statusNow io)) as L.
    destruct (getCurrentPlayerStatus gs (statusNow io)) as [playerStatus gs1].
    simpl in *.
    destruct (PlayerStatus.canRecordFirst playerStatus); simpl; [|exact C].
    destruct (mimeType req) as [mime|]; [|exact C].
    destruct (diskOk io); simpl; [|exact C].
    rewrite L. apply P; [reflexivity|]. apply orElse_truthy. reflexivity.
  - unfold Shared.recordSecondAudio.
    destruct (truthy (audioData req)); simpl; [|apply change_none].
    pose proof (change_status gs (statusNow io)) as C.
    pose proof (status_second_nonempty gs (statusNow io)) as N.
    destruct (getCurrentPlayerStatus gs (statusNow io)) as [playerStatus gs1].
    simpl in *.
    destruct (PlayerStatus.canRecordSecond playerStatus); simpl; [|exact C].
    destruct (N eq_refl) as (earlier & p & -> & H1 & H2 & E). inversion E; subst gs1.
    destruct (mimeType req) as [mime|]; [|exact C].
    destruct (diskOk io); simpl; [|exact C].
    rewrite unsnoc_app. simpl. rewrite length_app. simpl.
    replace (List.length earlier + 1 - 1) with (List.length earlier) by lia.
    now apply change_complete.
  - apply change_reset.
Qed.

Lemma session_step_change (gs gs' : GameState) : sessionStep gs gs' -> change gs gs'.
Proof.
  intros St. destruct St as [gs now|gs req io|gs req io].
  - apply change_status.
  - unfold Session.recordFirstAudio.
    destruct (truthy (audioData req)); simpl; [|apply change_none].
    pose proof (change_status gs (statusNow io)) as C.
    pose proof (change_push gs (statusNow io) io) as P.
    pose proof (status_length gs (statusNow io)) as L.
    pose proof (newPlayer_may_record gs (statusNow io)) as M.
    destruct (getCurrentPlayerStatus gs (statusNow io)) as [playerStatus gs1].
    simpl in *.
    destruct (PlayerStatus.isNewPlayer playerStatus); simpl; [|exact C].
    destruct (mimeType req) as [mime|]; [|exact C].
    destruct (diskOk io); simpl; [|exact C].
    rewrite L. apply P; [now apply M|]. apply orElse_truthy. reflexivity.
  - unfold Session.recordSecondAudio.
    destruct (truthy (audioData req)); simpl; [|apply change_none].
    pose proof (change_status gs (statusNow io)) as C.
    pose proof (status_second_nonempty gs (statusNow io)) as N.
    pose proof (needsSecond_is_canRecordSecond gs (statusNow io)) as X.
    destruct (getCurrentPlayerStatus gs (statusNow io)) as [playerStatus gs1].
    simpl in *.
    destruct (PlayerStatus.needsSecondFile playerStatus); simpl; [|exact C].
    destruct (N (eq_sym X)) as (earlier & p & -> & H1 & H2 & E).
    inversion E; subst gs1.
    destruct (mimeType req) as [mime|]; [|exact C].
    destruct (diskOk io); simpl; [|exact C].
    rewrite unsnoc_app. simpl. rewrite length_app. simpl.
    replace (List.length earlier + 1 - 1) with (List.length earlier) by lia.
    now apply change_complete.
Qed.

(** *** The three shapes of an entry *)

Lemma shapes_snoc (earlier : list slot) (p : slot) :
  forallb entryShape (earlier ++ [p]) = forallb entryShape earlier && entryShape p.
Proof. rewrite forallb_app. simpl. now rewrite andb_true_r. Qed.

Lemma shape_waiting (p : slot) :
  entryShape p = true -> truthy (file1 p) = true -> truthy (file2 p) = false ->
  truthyStr (name p) = true /\ file2 p = None /\
  exists f, file1 p = Some f /\ truthyStr f = true.
Proof.
  unfold entryShape. destruct p as [[f|] [g|] n [t|]]; simpl;
    intros H H1 H2; apply andb_true_iff in H; destruct H as [Hn H];
    try discriminate.
  - apply andb_true_iff in H. destruct H as [_ Hg]. congruence.
  - split; [exact Hn|]. split; [reflexivity|]. exists f. auto.
Qed.

Lemma shapes_status (gameState : GameState) (now : Z) :
  forallb entryShape gameState = true ->
  forallb entryShape (snd (getCurrentPlayerStatus gameState now)) = true.
Proof.
  intros W.
  destruct (status_effect gameState now)
    as [->|(earlier & p & t & -> & H1 & H2 & _ & _ & _ & _ & ->)]; [exact W|].
  rewrite shapes_snoc in *. apply andb_true_iff in W. destruct W as [We Wp].
  destruct (shape_waiting p Wp H1 H2) as (Hn & Hg & _).
  rewrite We. unfold entryShape, clearFirst. simpl. rewrite Hn, Hg. reflexivity.
Qed.

Lemma shapes_change (gs gs' : GameState) :
  change gs gs' -> forallb entryShape gs = true -> forallb entryShape gs' = true.
Proof.
  intros C W. destruct C as [gs|gs now|gs|gs now io mime given stamp Hc Hg
                            |earlier p io mime playerName H1 H2].
  - exact W.
  - now apply shapes_status.
  - reflexivity.
  - rewrite shapes_snoc, (shapes_status gs now W). unfold entryShape. simpl.
    rewrite Hg. reflexivity.
  - rewrite shapes_snoc in *. apply andb_true_iff in W. destruct W as [We Wp].
    destruct (shape_waiting p Wp H1 H2) as (Hn & _ & f & Hf & Tf).
    rewrite We. unfold entryShape, completeLast.
    destruct playerName as [given|]; [destruct (truthyStr given) eqn:G|];
      simpl; rewrite Hf, Tf, ?G, ?Hn; reflexivity.
Qed.

Lemma reachable_change_invariant (P : GameState -> Prop) :
  P [] -> (forall gs gs', change gs gs' -> P gs -> P gs') ->
  forall gs, sharedReachable gs \/ sessionReachable gs -> P gs.
Proof.
  intros P0 Pstep gs [R|R].
  - induction R as [|gs gs' _ IH St]; [exact P0|].
    eapply Pstep; [apply shared_step_change; exact St|exact IH].
  - induction R as [|gs gs' _ IH St]; [exact P0|].
    eapply Pstep; [apply session_step_change; exact St|exact IH].
Qed.

Lemma reachable_shapes (gameState : GameState) :
  sharedReachable gameState \/ sessionReachable gameState ->
  forallb entryShape gameState = true.
Proof.
  apply (reachable_change_invariant (fun gs => forallb entryShape gs = true));
    [reflexivity|apply shapes_change].
Qed.

(** X18: every entry of a game reachable in either server is in one of
    three shapes: nothing recorded (never, or reclaimed), with no
    timestamp; the first file alone, with a timestamp; or both files,
    with no timestamp.  File names and player names are never empty. *)
Theorem reachable_entry_shapes (gameState : GameState) (s : slot) :
  sharedReachable gameState \/ sessionReachable gameState ->
  In s gameState ->
  name s <> EmptyString /\
  ((file1 s = None /\ file2 s = None /\ startTime s = None) \/
   (exists f t, file1 s = Some f /\ f <> EmptyString /\
                file2 s = None /\ startTime s = Some t) \/
   (exists f g, file1 s = Some f /\ f <> EmptyString /\
                file2 s = Some g /\ g <> EmptyString /\ startTime s = None)).
Proof.
  intros R I. pose proof (reachable_shapes gameState R) as W.
  rewrite forallb_forall in W. specialize (W s I).
  unfold entryShape in W. apply andb_true_iff in W. destruct W as [Hn W].
  split; [destruct (name s); [discriminate|discriminate]|].
  destruct (file1 s) as [f|], (file2 s) as [g|], (startTime s) as [t|];
    try discriminate.
  - right. right. exists f, g. apply andb_true_iff in W. destruct W as [Tf Tg].
    repeat split; try reflexivity.
    + destruct f; [discriminate|discriminate].
    + destruct g; [discriminate|discriminate].
  - right. left. exists f, t. repeat split.
    destruct f; [discriminate|discriminate].
  - left. auto.
Qed.

Lemma reachable_entry_shapes_witness :
  let alice := Body (Some "UklGRg==") (Some "audio/wav") (Some "Alice") in
  let g1 := snd (Shared.recordFirstAudio alice (Readings 10 11 12 13 true) []) in
  exists s, In s g1 /\ name s = "Alice" /\
            exists f t, file1 s = Some f /\ file2 s = None /\ startTime s = Some t.
Proof.
  intros alice g1.
  assert (sharedReachable g1) as R
    by (apply shared_next with (gs := []);
        [exact shared_start|exact (shared_first [] alice _)]).
  exists (Slot (Some (generateFilename 0 "1" (Readings 10 11 12 13 true) "audio/wav"))
               None "Alice" (Some 13%Z)).
  assert (In (Slot (Some (generateFilename 0 "1" (Readings 10 11 12 13 true) "audio/wav"))
                   None "Alice" (Some 13%Z)) g1) as I by (left; reflexivity).
  split; [exact I|]. split; [reflexivity|].
  destruct (reachable_entry_shapes g1 _ (or_introl R) I)
    as (_ & [(A & _)|[(f & t & A & _ & B & C)|(f & g & _ & _ & A & _)]]);
    [discriminate A| |discriminate A].
  exists f, t. auto.
Defined.

(** X19: in a reachable game only the last entry can be on the clock:
    every entry before the last has no timestamp, so one status call has
    at most one entry to reclaim and none is forgotten. *)
Theorem only_last_on_the_clock (gameState earlier : GameState) (lastPlayer s : slot) :
  sharedReachable gameState \/ sessionReachable gameState ->
  gameState = earlier ++ [lastPlayer] ->
  In s earlier ->
  startTime s = None.
Proof.
  intros R E I.
  assert (wellShaped gameState = true) as W
    by (destruct R as [R|R];
        [now apply sharedReachable_wellShaped|now apply sessionReachable_wellShaped]).
  pose proof (reachable_shapes gameState R) as Sh. subst gameState.
  apply wellShaped_snoc in W. destruct W as (_ & _ & _ & St).
  rewrite shapes_snoc in Sh. apply andb_true_iff in Sh. destruct Sh as [Sh _].
  rewrite forallb_forall in St, Sh. specialize (St s I). specialize (Sh s I).
  unfold settled in St. unfold entryShape in Sh.
  apply andb_true_iff in Sh. destruct Sh as [_ Sh].
  destruct (file1 s), (file2 s), (startTime s); try discriminate; reflexivity.
Qed.

Lemma only_last_on_the_clock_witness :
  let alice := Body (Some "UklGRg==") (Some "audio/wav") (Some "Alice") in
  let bob := Body (Some "GkXfow==") (Some "audio/webm") None in
  let g1 := snd (Shared.recordFirstAudio alice (Readings 10 11 12 13 true) []) in
  let g2 := snd (Shared.recordSecondAudio alice (Readings 20 21 22 23 true) g1) in
  let g3 := snd (Shared.recordFirstAudio bob (Readings 30 31 32 33 true) g2) in
  map startTime g3 = [None; Some 33%Z].
Proof.
  intros alice bob g1 g2 g3.
  assert (sharedReachable g3) as R.
  { apply shared_next with (gs := g2); [|exact (shared_first g2 bob _)].
    apply shared_next with (gs := g1); [|exact (shared_second g1 alice _)].
    apply shared_next with (gs := []); [|exact (shared_first [] alice _)].
    exact shared_start. }
  assert (exists a b, g3 = [a] ++ [b]) as (a & b & E)
    by (eexists; eexists; reflexivity).
  pose proof (only_last_on_the_clock g3 [a] b a (or_introl R) E (or_introl eq_refl)) as H.
  rewrite E. simpl. rewrite H.
  assert (startTime b = Some 33%Z) as Hb.
  { assert (nth_error g3 1 = Some b) as N by (rewrite E; reflexivity).
    vm_compute in N. inversion N. reflexivity. }
  rewrite Hb. reflexivity.
Defined.

(** *** File names *)

Lemma prefix_app (a b c : string) :
  String.prefix (a ++ b) (a ++ c) = String.prefix b c.
Proof.
  induction a as [|x a IH]; [reflexivity|].
  simpl. destruct (ascii_dec x x) as [_|N]; [exact IH|contradiction].
Qed.

Lemma prefix_split (a f : string) :
  String.prefix a f = true -> exists rest, f = (a ++ rest)%string.
Proof.
  revert f. induction a as [|x a IH]; intros f H.
  - exists f. reflexivity.
  - destruct f as [|y f]; [discriminate|]. simpl in H.
    destruct (ascii_dec x y) as [->|_]; [|discriminate].
    destruct (IH f H) as (rest & ->). exists rest. reflexivity.
Qed.

Lemma prefix_self_app (a c : string) : String.prefix a (a ++ c) = true.
Proof.
  induction a as [|x a IH]; [destruct c; reflexivity|].
  simpl. destruct (ascii_dec x x) as [_|N]; [exact IH|contradiction].
Qed.

Lemma generated_carries_index (i : nat) (k : string) (io : readings) (mime : string) :
  carriesIndex i k (Some (generateFilename i k io mime)) = true.
Proof.
  unfold carriesIndex, generateFilename.
  rewrite !prefix_app. apply prefix_self_app.
Qed.

Lemma indexedFrom_app (i : nat) (a b : list slot) :
  indexedFrom i (a ++ b) = indexedFrom i a && indexedFrom (i + List.length a) b.
Proof.
  revert i. induction a as [|s a IH]; intros i; simpl.
  - now rewrite Nat.add_0_r.
  - rewrite IH. replace (S i + List.length a) with (i + S (List.length a)) by lia.
    now rewrite !andb_assoc.
Qed.

Lemma indexed_status (gameState : GameState) (now : Z) :
  indexedFrom 0 gameState = true ->
  indexedFrom 0 (snd (getCurrentPlayerStatus gameState now)) = true.
Proof.
  intros W.
  destruct (status_effect gameState now)
    as [->|(earlier & p & t & -> & _ & _ & _ & _ & _ & _ & ->)]; [exact W|].
  rewrite indexedFrom_app in *. apply andb_true_iff in W. destruct W as [We Wp].
  rewrite We. simpl in *.
  apply andb_true_iff in Wp. destruct Wp as [Wp _].
  apply andb_true_iff in Wp. destruct Wp as [_ W2]. rewrite W2. reflexivity.
Qed.

Lemma indexed_change (gs gs' : GameState) :
  change gs gs' -> indexedFrom 0 gs = true -> indexedFrom 0 gs' = true.
Proof.
  intros C W. destruct C as [gs|gs now|gs|gs now io mime given stamp Hc Hg
                            |earlier p io mime playerName H1 H2].
  - exact W.
  - now apply indexed_status.
  - reflexivity.
  - rewrite indexedFrom_app, (indexed_status gs now W), status_length.
    cbn [indexedFrom file1 file2 Nat.add andb].
    rewrite generated_carries_index. reflexivity.
  - rewrite indexedFrom_app in *. apply andb_true_iff in W. destruct W as [We Wp].
    rewrite We. cbn [indexedFrom Nat.add andb] in *.
    apply andb_true_iff in Wp. destruct Wp as [Wp _].
    apply andb_true_iff in Wp. destruct Wp as [W1 _].
    assert (file1 (completeLast p (generateFilename (List.length earlier) "2" io mime)
                                playerName) = file1 p) as E1
      by (unfold completeLast;
          destruct playerName as [given|]; [destruct (truthyStr given)|]; reflexivity).
    assert (file2 (completeLast p (generateFilename (List.length earlier) "2" io mime)
                                playerName) =
            Some (generateFilename (List.length earlier) "2" io mime)) as E2
      by (unfold completeLast;
          destruct playerName as [given|]; [destruct (truthyStr given)|]; reflexivity).
    rewrite E1, E2, W1, generated_carries_index. reflexivity.
Qed.

Lemma reachable_indexed (gameState : GameState) :
  sharedReachable gameState \/ sessionReachable gameState ->
  indexedFrom 0 gameState = true.
Proof.
  apply (reachable_change_invariant (fun gs => indexedFrom 0 gs = true));
    [reflexivity|apply indexed_change].
Qed.

Lemma indexed_nth (gameState : list slot) :
  forall i k s,
    indexedFrom i gameState = true -> nth_error gameState k = Some s ->
    carriesIndex (i + k) "1" (file1 s) = true /\
    carriesIndex (i + k) "2" (file2 s) = true.
Proof.
  induction gameState as [|x gs IH]; intros i k s W H.
  - destruct k; discriminate.
  - simpl in W. apply andb_true_iff in W. destruct W as [W Wr].
    apply andb_true_iff in W. destruct W as [W1 W2].
    destruct k as [|k]; simpl in H.
    + inversion H; subst. rewrite Nat.add_0_r. auto.
    + replace (i + S k) with (S i + k) by lia. now apply IH.
Qed.

(** The number of a file, as it is written in the name. *)
Lemma clip_name_form (gameState : GameState) (i : nat) (second : bool) (f : string) :
  sharedReachable gameState \/ sessionReachable gameState ->
  clipAt gameState i second = Some f ->
  exists rest,
    f = ("player" ++ decimal i ++ "_file" ++ (if second then "2" else "1")
                  ++ "_" ++ rest)%string.
Proof.
  intros R H. pose proof (reachable_indexed gameState R) as W.
  unfold clipAt in H. destruct (nth_error gameState i) as [s|] eqn:E; [|discriminate].
  destruct (indexed_nth gameState 0 i s W E) as [W1 W2]. simpl in W1, W2.
  destruct second; rewrite H in *; unfold carriesIndex in *.
  - destruct (prefix_split _ _ W2) as (rest & ->). exists rest.
    now rewrite !sapp_assoc.
  - destruct (prefix_split _ _ W1) as (rest & ->). exists rest.
    now rewrite !sapp_assoc.
Qed.

(** X20: in a reachable game the name of every stored clip tells where
    it is stored: the first or second file of the entry at index [i] is
    named [player<i>_file1_...] or [player<i>_file2_...]. *)
Theorem clip_names_tell_their_place (gameState : GameState) (i : nat)
  (second : bool) (f : string) :
  sharedReachable gameState \/ sessionReachable gameState ->
  clipAt gameState i second = Some f ->
  exists rest,
    f = ("player" ++ decimal i ++ "_file" ++ (if second then "2" else "1")
                  ++ "_" ++ rest)%string.
Proof. apply clip_name_form. Qed.

Lemma to_uint_nonnil (n : nat) : Nat.to_uint n <> Decimal.Nil.
Proof.
  rewrite <- (DecimalNat.Unsigned.of_to n) at 1.
  rewrite DecimalNat.Unsigned.to_of. unfold Decimal.unorm.
  destruct (Decimal.nzhead (Nat.to_uint n)); discriminate.
Qed.

Lemma decimal_digits (n : nat) (tail : string) :
  readDigits tail = (Decimal.Nil, tail) ->
  readDigits (decimal n ++ tail) = (Nat.to_uint n, tail).
Proof.
  intros H. unfold decimal.
  pose proof (to_uint_nonnil n) as N.
  replace (NilZero.string_of_uint (Nat.to_uint n))
    with (NilEmpty.string_of_uint (Nat.to_uint n))
    by (destruct (Nat.to_uint n); [contradiction|reflexivity..]).
  now apply readDigits_string_of_uint.
Qed.

(** A clip name has one place only. *)
Lemma place_of_name (i j : nat) (b b' : bool) (r r' : string) :
  ("player" ++ decimal i ++ "_file" ++ (if b then "2" else "1") ++ "_" ++ r)%string =
  ("player" ++ decimal j ++ "_file" ++ (if b' then "2" else "1") ++ "_" ++ r')%string ->
  i = j /\ b = b'.
Proof.
  intros E. simpl in E. inversion E as [E'].
  pose proof (f_equal readDigits E') as D.
  rewrite !decimal_digits in D by reflexivity.
  inversion D as [[Hd Ht]].
  split; [now apply DecimalNat.Unsigned.to_uint_inj|].
  destruct b, b'; simpl in Ht; try reflexivity; discriminate.
Qed.

(** X21: in a reachable game no file name is stored twice: two places of
    the array (an entry and first or second file) that hold the same
    name are the same place.  The clips of one game never overwrite each
    other. *)
Theorem clip_names_are_distinct (gameState : GameState) (i j : nat)
  (second second' : bool) (f : string) :
  sharedReachable gameState \/ sessionReachable gameState ->
  clipAt gameState i second = Some f ->
  clipAt gameState j second' = Some f ->
  i = j /\ second = second'.
Proof.
  intros R H H'.
  destruct (clip_name_form gameState i second f R H) as (r & E).
  destruct (clip_name_form gameState j second' f R H') as (r' & E').
  rewrite E in E'. now apply (place_of_name i j second second' r r').
Qed.

Lemma clip_names_tell_their_place_witness :
  let alice := Body (Some "UklGRg==") (Some "audio/wav") (Some "Alice") in
  let g1 := snd (Shared.recordFirstAudio alice (Readings 10 11 12 13 true) []) in
  exists rest,
    "player0_file1_11-12.wav" = ("player" ++ decimal 0 ++ "_file" ++ "1" ++ "_" ++ rest)%string.
Proof.
  intros alice g1.
  assert (sharedReachable g1) as R
    by (apply shared_next with (gs := []);
        [exact shared_start|exact (shared_first [] alice _)]).
  exact (clip_names_tell_their_place g1 0 false "player0_file1_11-12.wav"
           (or_introl R) eq_refl).
Defined.

Lemma clip_names_are_distinct_witness :
  let alice := Body (Some "UklGRg==") (Some "audio/wav") (Some "Alice") in
  let g1 := snd (Shared.recordFirstAudio alice (Readings 10 11 12 13 true) []) in
  let g2 := snd (Shared.recordSecondAudio alice (Readings 20 21 22 23 true) g1) in
  clipAt g2 0 false = Some "player0_file1_11-12.wav" /\
  clipAt g2 0 true = Some "player0_file2_21-22.wav" /\
  (0 = 0 /\ true = true).
Proof.
  intros alice g1 g2.
  assert (sharedReachable g2) as R.
  { apply shared_next with (gs := g1); [|exact (shared_second g1 alice _)].
    apply shared_next with (gs := []); [|exact (shared_first [] alice _)].
    exact shared_start. }
  split; [reflexivity|]. split; [reflexivity|].
  exact (clip_names_are_distinct g2 0 0 true true "player0_file2_21-22.wav"
           (or_introl R) eq_refl eq_refl).
Defined.

(** ** The file of the process-wide server *)

Lemma load_saved (gameState : GameState) (file : option string)
  (sharedGameState : GameState) :
  Shared.loadGameState (Shared.saveGameState gameState true file) sharedGameState =
  Some gameState.
Proof.
  unfold Shared.loadGameState, Shared.saveGameState.
  rewrite JSON_parse_stringify. apply ofJson_toJson.
Qed.

(** X22: whenever a record request succeeds or the game is reset, and
    the write of the file returns, the file holds exactly the array in
    memory: a restart would restore it. *)
Theorem accepted_request_is_saved (req : body) (io : readings)
  (server : sharedServer) :
  (forall filename,
     fst (sharedRecordFirst req io true server) = Success filename ->
     inSync (snd (sharedRecordFirst req io true server))) /\
  (forall filename,
     fst (sharedRecordSecond req io true server) = Success filename ->
     inSync (snd (sharedRecordSecond req io true server))) /\
  inSync (sharedReset true server) /\
  startServer (stateFile (sharedReset true server)) = Some (sharedReset true server).
Proof.
  unfold sharedRecordFirst, sharedRecordSecond, inSync.
  destruct (Shared.recordFirstAudio req io (memory server)) as [a1 g1].
  destruct (Shared.recordSecondAudio req io (memory server)) as [a2 g2].
  split; [|split; [|split]].
  - intros filename E. destruct a1; simpl in E; try discriminate.
    apply (load_saved g1 (stateFile server) []).
  - intros filename E. destruct a2; simpl in E; try discriminate.
    apply (load_saved g2 (stateFile server) []).
  - apply (load_saved [] (stateFile server) []).
  - reflexivity.
Qed.


(** X24: a reclaim made by a status poll lives in memory only.  If the
    file held the array before the poll, a restart after the poll brings
    back the array from before it, and the next poll at the same clock
    reading reclaims again, to the same array. *)
Theorem restart_replays_reclaim (server : sharedServer) (now : Z) :
  inSync server ->
  let polled := snd (sharedGameState now server) in
  exists restarted,
    startServer (stateFile polled) = Some restarted /\
    memory restarted = memory server /\
    memory (snd (sharedGameState now restarted)) = memory polled.
Proof.
  unfold inSync. intros H. simpl.
  exists (SharedServer (memory server) (stateFile server)).
  unfold sharedGameState, gameStateRoute, startServer. simpl.
  destruct (getCurrentPlayerStatus (memory server) now) as [st g] eqn:E.
  simpl. rewrite H. repeat split.
Qed.

Lemma restart_replays_reclaim_witness :
  let server :=
    SharedServer [Slot (Some "a.wav") None "Alice" (Some 1%Z)]
      (Shared.saveGameState [Slot (Some "a.wav") None "Alice" (Some 1%Z)] true None) in
  memory (snd (sharedGameState 200000 server)) = [Slot None None "Alice" None] /\
  exists restarted,
    startServer (stateFile (snd (sharedGameState 200000 server))) = Some restarted /\
    memory restarted = [Slot (Some "a.wav") None "Alice" (Some 1%Z)].
Proof.
  intros server. split; [reflexivity|].
  destruct (restart_replays_reclaim server 200000
              (load_saved [Slot (Some "a.wav") None "Alice" (Some 1%Z)] None []))
    as (restarted & A & B & _).
  exists restarted. split; [exact A|exact B].
Defined.

(** ** A new session *)

(** X26: in [server.js] a session that has no game yet starts one with
    its first complete first-recording request, whatever the clock: the
    request succeeds and the session holds a one-entry game, the player
    named as given or "Player 1".  Without audio data the session is
    left without a game. *)
Theorem new_session_starts_game (req : body) (io : readings) (mime : string) :
  mimeType req = Some mime -> diskOk io = true ->
  (truthy (audioData req) = true ->
   sessionRecordFirst req io None =
   (Success (generateFilename 0 "1" io mime),
    Some [Slot (Some (generateFilename 0 "1" io mime)) None
               (orElse (playerName req) "Player 1") (Some (pushNow io))])) /\
  (truthy (audioData req) = false ->
   sessionRecordFirst req io None = (BadRequest "No audio data received", None)).
Proof.
  intros Hm Hd. unfold sessionRecordFirst, Session.recordFirstAudio.
  split; intros Ha; rewrite Ha; simpl; [|reflexivity].
  rewrite Hm, Hd. reflexivity.
Qed.

Lemma new_session_starts_game_witness :
  sessionRecordFirst (Body (Some "UklGRg==") (Some "audio/wav") None)
                     (Readings 10 11 12 13 true) None =
  (Success "player0_file1_11-12.wav",
   Some [Slot (Some "player0_file1_11-12.wav") None "Player 1" (Some 13%Z)]).
Proof.
  exact (proj1 (new_session_starts_game
                  (Body (Some "UklGRg==") (Some "audio/wav") None)
                  (Readings 10 11 12 13 true) "audio/wav" eq_refl eq_refl) eq_refl).
Defined.

(** * Entries of any length *)

(** ** The four-element entries among them *)







Lemma elements_clearFirst (p : slot) :
  setAt (setAt (elements p) 0 JNull) 3 JNull = elements (clearFirst p).
Proof. reflexivity. Qed.













(** ** Shorter entries *)






(** The length of the array stays. *)
Lemma setAt_length (entry : list json) (i : nat) (v : json) :
  List.length (setAt entry i v) = List.length entry.
Proof.
  revert i. induction entry as [|x entry IH]; intros [|i]; simpl; auto.
Qed.




(** ** When the process-wide server is stuck *)



(** ** The answer of the status route *)



(** ** The game of four-element entries *)

